(** * CommitGen: the inference session of the commit-message generator

    A shallow embedding of [src/commitgen.cpp].  The llama.cpp library is
    an external collaborator: it is represented by the record [Engine],
    whose fields are the library entry points that [CommitGen::generate]
    calls.  Everything written in [commitgen.cpp] itself (prompt template,
    truncation, decode loop, stop heuristics, clean-up) is transcribed as
    executable definitions over [string] (a [std::string] is a sequence of
    bytes, an [ascii] is one byte). *)

From Stdlib Require Import String Ascii List ZArith Lia Bool QArith.
Import ListNotations.

Local Open Scope string_scope.
Local Open Scope Z_scope.

(** ** Bytes and [std::string] operations used by the source *)

Definition LF : ascii := ascii_of_nat 10.     (* '\n' *)
Definition TAB : ascii := ascii_of_nat 9.     (* '\t' *)
Definition SPACE : ascii := ascii_of_nat 32.  (* ' '  *)
Definition DQUOTE : ascii := ascii_of_nat 34. (* the double quote character *)

Definition str (c : ascii) : string := String c EmptyString.

(** [s.empty()] *)
Definition empty (s : string) : bool :=
  match s with EmptyString => true | String _ _ => false end.

(** [s[0]], defined when [s] is not empty *)
Definition front (s : string) : option ascii :=
  match s with EmptyString => None | String c _ => Some c end.

(** [s.back()], defined when [s] is not empty *)
Fixpoint back (s : string) : option ascii :=
  match s with
  | EmptyString => None
  | String c EmptyString => Some c
  | String _ s' => back s'
  end.

(** [s.erase(0, 1)] *)
Definition erase_front (s : string) : string :=
  match s with EmptyString => EmptyString | String _ s' => s' end.

(** [s.pop_back()] *)
Fixpoint pop_back (s : string) : string :=
  match s with
  | EmptyString => EmptyString
  | String _ EmptyString => EmptyString
  | String c s' => String c (pop_back s')
  end.

(** [s.substr(0, n)]: the first [n] bytes, or all of [s] when it is shorter *)
Definition substr0 (n : nat) (s : string) : string := substring 0 n s.

(** [s.find(t)]: position of the first occurrence, [None] for [npos] *)
Definition find (t s : string) : option nat := index 0 t s.

Fixpoint mem_ascii (c : ascii) (set : string) : bool :=
  match set with
  | EmptyString => false
  | String d set' => Ascii.eqb c d || mem_ascii c set'
  end.

(** [s.find_first_not_of(set)] *)
Fixpoint find_first_not_of (set s : string) : option nat :=
  match s with
  | EmptyString => None
  | String c s' =>
      if mem_ascii c set then option_map S (find_first_not_of set s')
      else Some 0%nat
  end.

Fixpoint unlines (ls : list string) : string :=
  match ls with
  | [] => EmptyString
  | l :: ls' => l ++ str LF ++ unlines ls'
  end.

(** ** The prompt template (commitgen.cpp, build_prompt) *)

Definition system_turn : list string :=
  [ "<|im_start|>system";
    "You are a commit message generator. Write a clear, natural commit message.";
    EmptyString;
    "Rules:";
    "- First line: short summary of what changed (max 72 chars)";
    "- Then a blank line";
    "- Then a paragraph explaining the changes in plain English";
    "- No prefixes like " ++ str DQUOTE ++ "feat:" ++ str DQUOTE ++ ", "
      ++ str DQUOTE ++ "fix:" ++ str DQUOTE ++ ", etc.";
    "- No bullet points";
    "- No " ++ str DQUOTE ++ "I" ++ str DQUOTE
      ++ " statements - use passive voice or imperative";
    "- Write like documentation, not a personal note";
    EmptyString;
    "Example:";
    "Disable playground build by default";
    EmptyString;
    "The CMake configuration now has BUILD_PLAYGROUND disabled by default to streamline the build process. Users who need the playground examples can enable it manually in their local configuration.";
    "<|im_end|>";
    "<|im_start|>user" ].

Definition assistant_turn : list string :=
  [ EmptyString; "<|im_end|>"; "<|im_start|>assistant" ].

Definition build_prompt (diff : string) : string :=
  unlines system_turn ++ diff ++ unlines assistant_turn.

(** ** The llama.cpp interface *)

(** [llama_token] is a 32-bit integer. *)
Definition llama_token := Z.

(** The stages added to the sampler chain, with their parameters.  The
    [float] literals 0.3f and 0.9f are configuration constants handed to
    the library; they are recorded as the decimal fractions written in
    the source. *)
Inductive SamplerStage :=
| Temp (t : Q)
| TopP (p : Q) (min_keep : nat)
| Dist (seed : Z).

Record Engine := {
  (** the state behind a [llama_context*]: KV cache and logits *)
  llama_context : Type;
  (** the state behind a [llama_sampler*] *)
  llama_sampler : Type;
  (** [llama_memory_seq_rm(llama_get_memory(ctx), 0, 0, -1)] *)
  llama_memory_seq_rm : llama_context -> llama_context;
  (** [llama_tokenize(vocab, text, len, buf, n_tokens_max, true, true)]:
      the returned count and the contents of the token buffer *)
  llama_tokenize : string -> Z -> Z * list llama_token;
  (** [llama_decode(ctx, llama_batch_get_one(toks, n))]: status and new
      context state *)
  llama_decode : llama_context -> list llama_token -> Z * llama_context;
  (** [llama_sampler_chain_init] followed by [llama_sampler_chain_add]
      for each stage *)
  llama_sampler_chain : list SamplerStage -> llama_sampler;
  (** [llama_sampler_sample(smpl, ctx, -1)]: the token and the sampler
      state after accepting it *)
  llama_sampler_sample : llama_sampler -> llama_context -> llama_token * llama_sampler;
  (** [llama_vocab_is_eog(vocab, tok)] *)
  llama_vocab_is_eog : llama_token -> bool;
  (** [llama_token_to_piece(vocab, tok, buf, sizeof(buf), 0, true)]:
      the returned length and the contents of [buf] *)
  llama_token_to_piece : llama_token -> Z -> Z * string
}.

(** Calls that leave [generate], in program order.  This log is ghost
    state: it lets statements speak about which library calls a run of
    [generate] performs. *)
Inductive Event :=
| EvLock
| EvUnlock
| EvMemorySeqRm
| EvTokenize (text : string) (ret : Z)
| EvDecode (batch : list llama_token) (status : Z)
| EvSamplerInit (chain : list SamplerStage)
| EvSamplerFree
| EvSample (tok : llama_token)
| EvTokenToPiece (tok : llama_token) (len : Z).

Definition is_sample (e : Event) : bool :=
  match e with EvSample _ => true | _ => false end.

(** The [return] statement through which a call of [generate] leaves:
    line 91, line 105, line 110 or line 168 of commitgen.cpp. *)
Inductive ReturnSite :=
| RetNotReady
| RetTokenizeFailed
| RetDecodeFailed
| RetResult.

Definition stop_str : string := "<|im_end|>".

(** The sampler chain of lines 112-115. *)
Definition sampler_stages : list SamplerStage :=
  [ Temp (3 # 10); TopP (9 # 10) 1; Dist 42 ].

(** [tokens.resize(n)] on a vector of [llama_token] *)
Definition resize (n : nat) (v : list llama_token) : list llama_token :=
  firstn n v ++ repeat 0 (n - length v).

(** ** Clean-up of the accumulated text (lines 157-166) *)

Definition strip_leading_quote (r : string) : string :=
  if negb (empty r) && match front r with Some c => Ascii.eqb c DQUOTE | None => false end
  then erase_front r else r.

Definition strip_trailing_quote (r : string) : string :=
  if negb (empty r) && match back r with Some c => Ascii.eqb c DQUOTE | None => false end
  then pop_back r else r.

Definition is_trailing_ws (c : ascii) : bool :=
  Ascii.eqb c LF || Ascii.eqb c SPACE.

(** The [while] loop of lines 165-166; each iteration removes one byte,
    so [length r] iterations always suffice. *)
Fixpoint trim_loop (fuel : nat) (r : string) : string :=
  match fuel with
  | O => r
  | S fuel' =>
      if negb (empty r) && match back r with Some c => is_trailing_ws c | None => false end
      then trim_loop fuel' (pop_back r)
      else r
  end.

Definition trim_trailing (r : string) : string := trim_loop (String.length r) r.

Definition post_process (r : string) : string :=
  trim_trailing (strip_trailing_quote (strip_leading_quote r)).

(** ** The session and [generate] *)

Local Open Scope list_scope.

Section Session.

Variable E : Engine.

(** [CommitGen::Impl].  The model and vocabulary handles never change
    after loading and are the engine [E] itself; [ctx] is the state of
    the context object and [ready] the atomic flag. *)
Record Impl := {
  ready : bool;
  ctx : llama_context E
}.

Definition is_ready (s : Impl) : bool := ready s.

(** Local variables of the decode loop, with the call log. *)
Record LoopState := {
  sampler : llama_sampler E;
  lctx : llama_context E;
  result : string;
  consecutive_newlines : Z;
  trace : list Event
}.

Inductive Step :=
| Break (st : LoopState)
| Next (st : LoopState).

(** Lines 142-148: the new counter and whether the loop breaks. *)
Definition newline_rule (piece : string) (cn : Z) : Z * bool :=
  if String.eqb piece (str LF) then (cn + 1, 3 <=? cn + 1)
  else match find_first_not_of (String SPACE (str TAB)) piece with
       | Some _ => (0, false)
       | None => (cn, false)
       end.

(** One iteration of the [for] loop, lines 123-152. *)
Definition loop_body (st : LoopState) : Step :=
  let '(new_token, smp) := llama_sampler_sample E (sampler st) (lctx st) in
  let tr := trace st ++ [EvSample new_token] in
  if llama_vocab_is_eog E new_token then
    Break {| sampler := smp; lctx := lctx st; result := result st;
             consecutive_newlines := consecutive_newlines st; trace := tr |}
  else
    let '(len, buf) := llama_token_to_piece E new_token 256 in
    let tr := tr ++ [EvTokenToPiece new_token len] in
    if len <? 0 then
      Next {| sampler := smp; lctx := lctx st; result := result st;
              consecutive_newlines := consecutive_newlines st; trace := tr |}
    else
      let piece := substr0 (Z.to_nat len) buf in
      let res := (result st ++ piece)%string in
      match find stop_str res with
      | Some k =>
          Break {| sampler := smp; lctx := lctx st; result := substr0 k res;
                   consecutive_newlines := consecutive_newlines st; trace := tr |}
      | None =>
          let '(cn, stop) := newline_rule piece (consecutive_newlines st) in
          if stop then
            Break {| sampler := smp; lctx := lctx st; result := res;
                     consecutive_newlines := cn; trace := tr |}
          else
            let '(status, c) := llama_decode E (lctx st) [new_token] in
            let st' := {| sampler := smp; lctx := c; result := res;
                          consecutive_newlines := cn;
                          trace := tr ++ [EvDecode [new_token] status] |} in
            if negb (status =? 0) then Break st' else Next st'
      end.

(** [for (int i = 0; i < 512; i++)], by recursion on the number of
    iterations that remain. *)
Fixpoint decode_loop (remaining : nat) (st : LoopState) : LoopState :=
  match remaining with
  | O => st
  | S n =>
      match loop_body st with
      | Break st' => st'
      | Next st' => decode_loop n st'
      end
  end.

Definition MAX_ITERATIONS : nat := 512.

Record GenResult := {
  output : string;
  exit : ReturnSite;
  session : Impl;
  calls : list Event
}.

(** Lines 99-100. *)
Definition prompt_of (diff : string) : string :=
  build_prompt (substr0 4000 diff).

(** Lines 101-103. *)
Definition tokenized (diff : string) : Z * list llama_token :=
  llama_tokenize E (prompt_of diff) (Z.of_nat (String.length (prompt_of diff) + 16)).

(** Lines 106-109. *)
Definition prompt_tokens (diff : string) : list llama_token :=
  resize (Z.to_nat (fst (tokenized diff))) (snd (tokenized diff)).

Definition prompt_decoded (s : Impl) (diff : string) : Z * llama_context E :=
  llama_decode E (llama_memory_seq_rm E (ctx s)) (prompt_tokens diff).

Definition prologue (diff : string) : list Event :=
  [ EvLock; EvMemorySeqRm; EvTokenize (prompt_of diff) (fst (tokenized diff)) ].

(** Lines 112-120: the state in which the loop is entered. *)
Definition loop_init (s : Impl) (diff : string) : LoopState :=
  {| sampler := llama_sampler_chain E sampler_stages;
     lctx := snd (prompt_decoded s diff);
     result := EmptyString;
     consecutive_newlines := 0;
     trace := prologue diff
              ++ [ EvDecode (prompt_tokens diff) (fst (prompt_decoded s diff));
                   EvSamplerInit sampler_stages ] |}.

(** [CommitGen::generate], lines 89-169. *)
Definition generate (s : Impl) (diff : string) : GenResult :=
  if negb (is_ready s) then
    {| output := EmptyString; exit := RetNotReady; session := s; calls := [] |}
  else if fst (tokenized diff) <? 0 then
    {| output := EmptyString; exit := RetTokenizeFailed;
       session := {| ready := ready s; ctx := llama_memory_seq_rm E (ctx s) |};
       calls := prologue diff ++ [EvUnlock] |}
  else if negb (fst (prompt_decoded s diff) =? 0) then
    {| output := EmptyString; exit := RetDecodeFailed;
       session := {| ready := ready s; ctx := snd (prompt_decoded s diff) |};
       calls := prologue diff
                ++ [ EvDecode (prompt_tokens diff) (fst (prompt_decoded s diff));
                     EvUnlock ] |}
  else
    let st := decode_loop MAX_ITERATIONS (loop_init s diff) in
    {| output := post_process (result st); exit := RetResult;
       session := {| ready := ready s; ctx := lctx st |};
       calls := trace st ++ [EvSamplerFree; EvUnlock] |}.

(** The state after [k] complete iterations, when none of them left the
    loop. *)
Fixpoint run_iterations (k : nat) (st : LoopState) : option LoopState :=
  match k with
  | O => Some st
  | S k' =>
      match loop_body st with
      | Next st' => run_iterations k' st'
      | Break _ => None
      end
  end.

End Session.

Arguments ready {E} _.
Arguments ctx {E} _.
Arguments sampler {E} _.
Arguments lctx {E} _.
Arguments result {E} _.
Arguments consecutive_newlines {E} _.
Arguments trace {E} _.
Arguments Break {E} _.
Arguments Next {E} _.
Arguments output {E} _.
Arguments exit {E} _.
Arguments session {E} _.
Arguments calls {E} _.

(** The fragment produced by the iteration that starts in [st], when the
    sampled token is not an end-of-generation token and its conversion
    succeeds (lines 123-132). *)
Definition sampled_piece (E : Engine) (st : LoopState E) : option string :=
  let tok := fst (llama_sampler_sample E (sampler st) (lctx st)) in
  if llama_vocab_is_eog E tok then None
  else if fst (llama_token_to_piece E tok 256) <? 0 then None
  else Some (substr0 (Z.to_nat (fst (llama_token_to_piece E tok 256)))
                     (snd (llama_token_to_piece E tok 256))).

(** The number of [llama_sampler_sample] calls in a call log. *)
Definition samples (tr : list Event) : nat := List.length (filter is_sample tr).

(** ** A scripted engine

    A stand-in for the library whose sampler plays back a fixed list of
    fragments: the [n]-th draw returns token [n], whose behaviour is the
    [n]-th entry of the script ([rest] beyond its end). *)
Module Scripted.

Inductive Frag :=
| Piece (p : string)      (* a token whose text is [p] *)
| Unprintable             (* [llama_token_to_piece] reports a negative length *)
| Rejected (p : string)   (* a token with text [p] whose decode fails *)
| Eog.                    (* an end-of-generation token *)

Record Script := {
  frags : list Frag;
  rest : Frag;
  tokenize_ok : bool;
  prompt_status : Z
}.

Definition frag_at (sc : Script) (tok : llama_token) : Frag :=
  nth (Z.to_nat tok) (frags sc) (rest sc).

Definition bytes_as_tokens (text : string) : list llama_token :=
  map (fun c => Z.of_nat (nat_of_ascii c)) (list_ascii_of_string text).

Definition engine (sc : Script) : Engine := {|
  llama_context := list llama_token;
  llama_sampler := nat;
  llama_memory_seq_rm := fun _ => [];
  llama_tokenize := fun text _ =>
    if tokenize_ok sc then (Z.of_nat (String.length text), bytes_as_tokens text)
    else (-1, []);
  llama_decode := fun c batch =>
    match c with
    | [] => (prompt_status sc, batch)
    | _ => match batch with
           | [t] => match frag_at sc t with
                    | Rejected _ => (1, c)
                    | _ => (0, c ++ batch)
                    end
           | _ => (0, c ++ batch)
           end
    end;
  llama_sampler_chain := fun _ => 0%nat;
  llama_sampler_sample := fun n _ => (Z.of_nat n, S n);
  llama_vocab_is_eog := fun t =>
    match frag_at sc t with Eog => true | _ => false end;
  llama_token_to_piece := fun t _ =>
    match frag_at sc t with
    | Piece p | Rejected p => (Z.of_nat (String.length p), p)
    | Unprintable => (-1, EmptyString)
    | Eog => (0, EmptyString)
    end
|}.

(** A script that plays [fs] and then ends the generation. *)
Definition play (fs : list Frag) : Script :=
  {| frags := fs; rest := Eog; tokenize_ok := true; prompt_status := 0 |}.

(** A loaded session with an empty context. *)
Definition fresh (sc : Script) : Impl (engine sc) :=
  {| ready := true; ctx := ([] : llama_context (engine sc)) |}.

Definition loading (sc : Script) : Impl (engine sc) :=
  {| ready := false; ctx := ([] : llama_context (engine sc)) |}.

Definition nl : string := str LF.

End Scripted.

(** ** Notions used in the statements *)

Local Open Scope string_scope.

(** [t] occurs in [s] as a contiguous block of bytes. *)
Definition occurs_in (t s : string) : Prop :=
  exists a b, s = a ++ t ++ b.

(** Whitespace in the sense of the C locale ([isspace]): space, tab,
    line feed, vertical tab, form feed and carriage return. *)
Definition is_whitespace (c : ascii) : bool :=
  let n := nat_of_ascii c in
  (n =? 32)%nat || ((9 <=? n)%nat && (n <=? 13)%nat).

Definition whitespace_only (p : string) : bool :=
  forallb is_whitespace (list_ascii_of_string p).

(** A fragment made of spaces and tabs only (possibly empty). *)
Definition blank_only (p : string) : bool :=
  forallb (fun c => mem_ascii c (String SPACE (str TAB))) (list_ascii_of_string p).

(** The clean-up as the specification words it, on the list of bytes:
    drop one leading quote if there is one, drop one trailing quote if
    there is one, then drop every trailing line feed and space. *)
Definition spec_strip_leading (l : list ascii) : list ascii :=
  match l with
  | c :: l' => if Ascii.eqb c DQUOTE then l' else l
  | [] => []
  end.

Definition spec_strip_trailing (l : list ascii) : list ascii :=
  rev (spec_strip_leading (rev l)).

Fixpoint drop_ws (l : list ascii) : list ascii :=
  match l with
  | c :: l' => if is_trailing_ws c then drop_ws l' else l
  | [] => []
  end.

Definition spec_trim (l : list ascii) : list ascii := rev (drop_ws (rev l)).

Definition spec_post_process (r : string) : string :=
  string_of_list_ascii
    (spec_trim (spec_strip_trailing (spec_strip_leading (list_ascii_of_string r)))).

(** What is assumed of the library when two runs are compared: [R]
    relates context states that the library cannot tell apart.  Clearing
    the sequence memory leads to such states from anywhere, and decoding
    and sampling respect the relation. *)
Record ResetClears (E : Engine)
    (R : llama_context E -> llama_context E -> Prop) : Prop := {
  reset_related : forall c1 c2,
      R (llama_memory_seq_rm E c1) (llama_memory_seq_rm E c2);
  decode_related : forall c1 c2 batch, R c1 c2 ->
      fst (llama_decode E c1 batch) = fst (llama_decode E c2 batch) /\
      R (snd (llama_decode E c1 batch)) (snd (llama_decode E c2 batch));
  sample_related : forall smp c1 c2, R c1 c2 ->
      llama_sampler_sample E smp c1 = llama_sampler_sample E smp c2
}.

(** Two loop states that differ at most in indistinguishable contexts. *)
Definition state_rel {E : Engine}
    (R : llama_context E -> llama_context E -> Prop)
    (a b : LoopState E) : Prop :=
  sampler a = sampler b /\ R (lctx a) (lctx b) /\ result a = result b /\
  consecutive_newlines a = consecutive_newlines b /\ trace a = trace b.

(** What every iteration of the decode loop maintains. *)
Definition loop_inv {E : Engine} (st : LoopState E) : Prop :=
  0 <= consecutive_newlines st /\ find stop_str (result st) = None.

(** ** Inputs on which the statements are exercised *)

Module Examples.

Import Scripted.

Definition quoted (s : string) : string := String DQUOTE (s ++ str DQUOTE).

(** The fragment stream of the triple-newline test. *)
Definition padded : list Frag :=
  [ Piece "ok"; Piece nl; Piece nl; Piece nl; Piece "ignored" ].

(** The same stream with a two-newline fragment in the run of newlines. *)
Definition double_newline : list Frag :=
  [ Piece "ok"; Piece nl; Piece nl; Piece (nl ++ nl); Piece nl; Piece "tail" ].

(** A stream whose second token has no text. *)
Definition hiccup : list Frag :=
  [ Piece "fix"; Unprintable; Piece " bug" ].

(** A stream whose third token is refused by [llama_decode]. *)
Definition refused : list Frag :=
  [ Piece "fix"; Piece " the"; Rejected " bug"; Piece "never" ].

(** A stream that spells the stop marker across two fragments. *)
Definition echoed : list Frag :=
  [ Piece "text<|im"; Piece "_end|>more text"; Piece "zzz" ].

(** An engine that never stops by itself. *)
Definition babble : Script :=
  {| frags := []; rest := Piece "a"; tokenize_ok := true; prompt_status := 0 |}.

Definition no_tokens : Script :=
  {| frags := padded; rest := Eog; tokenize_ok := false; prompt_status := 0 |}.

Definition no_decode : Script :=
  {| frags := padded; rest := Eog; tokenize_ok := true; prompt_status := 1 |}.

(** The loop state of a fresh session playing [fs], after [k] iterations. *)
Definition state_after (fs : list Frag) (k : nat) : LoopState (engine (play fs)) :=
  decode_loop _ k (loop_init _ (fresh (play fs)) "diff").

(** An engine whose [llama_memory_seq_rm] clears nothing and whose next
    token is the number of tokens decoded so far. *)
Definition leaky : Engine := {|
  llama_context := nat;
  llama_sampler := unit;
  llama_memory_seq_rm := fun c => c;
  llama_tokenize := fun _ _ => (1, [0]);
  llama_decode := fun c batch => (0, (c + List.length batch)%nat);
  llama_sampler_chain := fun _ => tt;
  llama_sampler_sample := fun _ c => (Z.of_nat c, tt);
  llama_vocab_is_eog := fun t => (3 <=? t)%Z;
  llama_token_to_piece := fun _ _ => (1, "a")
|}.

(** A diff of 5000 bytes. *)
Definition long_diff : string :=
  string_of_list_ascii (repeat "x"%char 4000 ++ repeat "y"%char 1000).

End Examples.

(** ** Loading and releasing the model (constructor and destructor)

    The constructor starts a task that loads the model; the destructor
    waits for that task and releases what it obtained.  The library entry
    points they call are the fields of [Loader]; a null pointer is
    [None]. *)

Module Lifecycle.

Record Loader := {
  llama_model : Type;
  llama_context_handle : Type;
  llama_vocab : Type;
  (** [llama_model_load_from_file(path, llama_model_default_params())] *)
  llama_model_load_from_file : string -> option llama_model;
  (** [llama_init_from_model(model, ctx_params)], given [ctx_params.n_ctx] *)
  llama_init_from_model : llama_model -> Z -> option llama_context_handle;
  (** [llama_model_get_vocab(model)] *)
  llama_model_get_vocab : llama_model -> llama_vocab
}.

Section Handles.

Variable L : Loader.

(** The pointer and flag members of [CommitGen::Impl] (lines 18-25). *)
Record Impl := {
  model : option (llama_model L);
  ctx : option (llama_context_handle L);
  vocab : option (llama_vocab L);
  ready : bool
}.

(** The members as [std::make_unique<Impl>()] initialises them. *)
Definition fresh_impl : Impl :=
  {| model := None; ctx := None; vocab := None; ready := false |}.

Definition N_CTX : Z := 4096.

(** The load task (the lambda of lines 28-46), run on a fresh [Impl]. *)
Definition load_task (model_path : string) : Impl :=
  match llama_model_load_from_file L model_path with
  | None => fresh_impl
  | Some m =>
      {| model := Some m;
         ctx := llama_init_from_model L m N_CTX;
         vocab := Some (llama_model_get_vocab L m);
         ready := true |}
  end.

(** [CommitGen::is_ready] (lines 59-61). *)
Definition is_ready (impl : Impl) : bool := ready impl.

Inductive Release :=
| LlamaFree (c : llama_context_handle L)
| LlamaModelFree (m : llama_model L).

(** The destructor (lines 49-57), once [init_future.wait()] has
    returned: the library release calls, in program order. *)
Definition destroy (impl : Impl) : list Release :=
  (match ctx impl with Some c => [LlamaFree c] | None => [] end)
  ++ (match model impl with Some m => [LlamaModelFree m] | None => [] end).

End Handles.

Arguments model {L} _.
Arguments ctx {L} _.
Arguments vocab {L} _.
Arguments ready {L} _.
Arguments LlamaFree {L} _.
Arguments LlamaModelFree {L} _.

(** A loader that knows one model file; its context creation succeeds or
    not as [ctx_ok] says. *)
Definition single_file (ctx_ok : bool) : Loader := {|
  llama_model := string;
  llama_context_handle := Z;
  llama_vocab := unit;
  llama_model_load_from_file := fun path =>
    if String.eqb path "model.gguf" then Some path else None;
  llama_init_from_model := fun _ n_ctx => if ctx_ok then Some n_ctx else None;
  llama_model_get_vocab := fun _ => tt
|}.

End Lifecycle.

(** ** The call log of a run *)

Definition is_lock (e : Event) : bool :=
  match e with EvLock => true | _ => false end.

Definition is_unlock (e : Event) : bool :=
  match e with EvUnlock => true | _ => false end.

Definition is_seq_rm (e : Event) : bool :=
  match e with EvMemorySeqRm => true | _ => false end.

Definition is_sampler_init (e : Event) : bool :=
  match e with EvSamplerInit _ => true | _ => false end.

Definition is_sampler_free (e : Event) : bool :=
  match e with EvSamplerFree => true | _ => false end.

Definition count (p : Event -> bool) (tr : list Event) : nat :=
  List.length (filter p tr).

(** The calls an iteration of the decode loop may make: a draw, a
    conversion, and the decode of one token that is not an
    end-of-generation token and whose conversion succeeded. *)
Definition loop_event (E : Engine) (e : Event) : Prop :=
  match e with
  | EvSample _ => True
  | EvTokenToPiece _ _ => True
  | EvDecode [t] _ =>
      llama_vocab_is_eog E t = false /\ (0 <= fst (llama_token_to_piece E t 256))%Z
  | _ => False
  end.

(** The largest number of bytes a call can accumulate when no fragment
    exceeds the 256-byte conversion buffer. *)
Definition MAX_RESULT : nat := (512 * 256)%nat.

Module MoreExamples.

Import Scripted.

(** The loop state of a fresh session on [sc], after [k] iterations. *)
Definition script_state (sc : Script) (k : nat) : LoopState (engine sc) :=
  decode_loop _ k (loop_init _ (fresh sc) "diff").

End MoreExamples.

(** Case analysis on every test of [loop_body]. *)
Ltac break_step :=
  repeat match goal with
    | |- context [let '(_, _) := ?x in _] => destruct x eqn:?
    | |- context [match find ?t ?r with _ => _ end] => destruct (find t r) eqn:?
    | |- context [if ?b then _ else _] => destruct b eqn:?
    end.

(** * Facts about the string operations *)

Lemma append_empty_r (s : string) : s ++ EmptyString = s.
Proof. induction s as [|c s IH]; simpl; [reflexivity | now rewrite IH]. Qed.

Lemma append_assoc (a b c : string) : (a ++ b) ++ c = a ++ (b ++ c).
Proof. induction a as [|x a IH]; simpl; [reflexivity | now rewrite IH]. Qed.

Lemma length_append (a b : string) :
  String.length (a ++ b) = (String.length a + String.length b)%nat.
Proof. induction a as [|x a IH]; simpl; [reflexivity | now rewrite IH]. Qed.

Lemma occurs_in_refl (s : string) : occurs_in s s.
Proof. exists EmptyString, EmptyString. simpl. now rewrite append_empty_r. Qed.

Lemma occurs_in_trans (t u s : string) :
  occurs_in t u -> occurs_in u s -> occurs_in t s.
Proof.
  intros (a & b & ->) (a' & b' & ->).
  exists (a' ++ a), (b ++ b'). now rewrite !append_assoc.
Qed.

Lemma occurs_in_cons (t s : string) (c : ascii) :
  occurs_in t s -> occurs_in t (String c s).
Proof. intros (a & b & ->). now exists (String c a), b. Qed.

Lemma occurs_in_empty (c : ascii) (t : string) :
  ~ occurs_in (String c t) EmptyString.
Proof. intros (a & b & H). destruct a; discriminate. Qed.

Lemma prefix_split (t s : string) :
  prefix t s = true <-> exists b, s = t ++ b.
Proof.
  revert s. induction t as [|x t IH]; intros s.
  - destruct s; simpl; split; eauto.
  - destruct s as [|y s]; simpl.
    + split; [discriminate | intros (b & H); discriminate].
    + destruct (ascii_dec x y) as [->|Hne].
      * destruct (IH s) as [H1 H2]. split.
        -- intros H. destruct (H1 H) as (b & ->). now exists b.
        -- intros (b & H). apply H2. exists b. now injection H.
      * split; [discriminate|]. intros (b & H). injection H as H1 H2.
        now elim Hne.
Qed.

Lemma substr0_split (n : nat) (s : string) : exists b, s = substr0 n s ++ b.
Proof.
  unfold substr0. revert s. induction n as [|n IH]; intros s.
  - exists s. now destruct s.
  - destruct s as [|c s]; simpl.
    + now exists EmptyString.
    + destruct (IH s) as (b & Hb). exists b. now rewrite <- Hb.
Qed.

Lemma substr0_occurs (n : nat) (s : string) : occurs_in (substr0 n s) s.
Proof. destruct (substr0_split n s) as (b & Hb). now exists EmptyString, b. Qed.

Lemma substr0_length (n : nat) (s : string) :
  String.length (substr0 n s) = Nat.min n (String.length s).
Proof.
  unfold substr0. revert s. induction n as [|n IH]; intros s.
  - now destruct s.
  - destruct s as [|c s]; simpl; [reflexivity | now rewrite IH].
Qed.

Lemma substr0_all (n : nat) (s : string) :
  (String.length s <= n)%nat -> substr0 n s = s.
Proof.
  unfold substr0. revert s. induction n as [|n IH]; intros s Hl.
  - destruct s; [reflexivity | simpl in Hl; lia].
  - destruct s as [|c s]; simpl; [reflexivity|].
    simpl in Hl. rewrite IH; [reflexivity | lia].
Qed.

Lemma substr0_idem (n : nat) (s : string) :
  substr0 n (substr0 n s) = substr0 n s.
Proof. apply substr0_all. rewrite substr0_length. lia. Qed.

Lemma substr0_append (a b : string) : substr0 (String.length a) (a ++ b) = a.
Proof.
  unfold substr0. induction a as [|c a IH]; simpl.
  - now destruct b.
  - now rewrite IH.
Qed.

Lemma find_cons (t s : string) (c : ascii) :
  find t (String c s) =
  if prefix t (String c s) then Some 0%nat else option_map S (find t s).
Proof. unfold find. simpl. destruct (prefix t (String c s)); [reflexivity|].
  now destruct (index 0 t s). Qed.

Lemma find_none (t s : string) : find t s = None -> ~ occurs_in t s.
Proof.
  induction s as [|c s IH].
  - unfold find; simpl. destruct t; [discriminate|]. intros _.
    apply occurs_in_empty.
  - rewrite find_cons. destruct (prefix t (String c s)) eqn:Hp; [discriminate|].
    destruct (find t s) eqn:Hf; [discriminate|]. intros _ (a & b & H).
    destruct a as [|x a]; simpl in H.
    + assert (prefix t (String c s) = true) by (apply prefix_split; eauto).
      congruence.
    + injection H as _ H. apply IH; [reflexivity|]. now exists a, b.
Qed.

Lemma not_occurs_find (t s : string) : ~ occurs_in t s -> find t s = None.
Proof.
  induction s as [|c s IH]; intros Hn.
  - unfold find; simpl. destruct t; [|reflexivity].
    elim Hn. now exists EmptyString, EmptyString.
  - rewrite find_cons. destruct (prefix t (String c s)) eqn:Hp.
    + apply prefix_split in Hp as (b & Hb). elim Hn.
      now exists EmptyString, b.
    + rewrite IH; [reflexivity|]. intros Ho. apply Hn.
      now apply occurs_in_cons.
Qed.

(** The text before the first occurrence does not contain the needle, and
    the needle follows it. *)
Lemma find_some (c : ascii) (t s : string) (k : nat) :
  find (String c t) s = Some k ->
  (exists b, s = substr0 k s ++ String c t ++ b) /\
  ~ occurs_in (String c t) (substr0 k s).
Proof.
  revert k. induction s as [|x s IH]; intros k.
  - unfold find; simpl. discriminate.
  - rewrite find_cons. destruct (prefix (String c t) (String x s)) eqn:Hp.
    + intros [= <-]. split.
      * apply prefix_split in Hp as (b & Hb). now exists b.
      * apply occurs_in_empty.
    + destruct (find (String c t) s) as [j|] eqn:Hf; [|discriminate].
      intros [= <-]. destruct (IH j eq_refl) as ((b & Hb) & Hno). split.
      * exists b. unfold substr0 in *. cbn [substring].
        change (String x s = String x (substring 0 j s ++ String c t ++ b)).
        now rewrite <- Hb.
      * intros (a & b' & H). unfold substr0 in H; simpl in H.
        destruct a as [|y a]; simpl in H.
        -- destruct (substr0_split j s) as (r & Hr).
           assert (prefix (String c t) (String x s) = true).
           { apply prefix_split. exists (b' ++ r).
             rewrite Hr at 1. fold (substr0 j s) in H.
             change (String x (substr0 j s ++ r))
               with (String x (substr0 j s) ++ r).
             rewrite H. simpl. now rewrite append_assoc. }
           congruence.
        -- injection H as _ H. apply Hno. now exists a, b'.
Qed.

Lemma not_occurs_sub (t u s : string) :
  occurs_in u s -> ~ occurs_in t s -> ~ occurs_in t u.
Proof. intros Hu Hn Ht. apply Hn. eapply occurs_in_trans; eassumption. Qed.

(** *** The last byte *)

Lemma back_snoc (s : string) (c : ascii) : back (s ++ str c) = Some c.
Proof.
  induction s as [|x s IH]; [reflexivity|].
  simpl. rewrite IH. now destruct s.
Qed.

Lemma pop_back_snoc (s : string) (c : ascii) : pop_back (s ++ str c) = s.
Proof.
  induction s as [|x s IH]; [reflexivity|].
  simpl. rewrite IH. now destruct s.
Qed.

Lemma snoc_cases (s : string) :
  s = EmptyString \/ exists s' c, s = s' ++ str c.
Proof.
  induction s as [|x s IH]; [now left | right].
  destruct IH as [-> | (s' & c & ->)].
  - now exists EmptyString, x.
  - now exists (String x s'), c.
Qed.

Lemma pop_back_occurs (s : string) : occurs_in (pop_back s) s.
Proof.
  destruct (snoc_cases s) as [-> | (s' & c & ->)].
  - apply occurs_in_refl.
  - rewrite pop_back_snoc. now exists EmptyString, (str c).
Qed.

Lemma pop_back_length (s : string) :
  String.length (pop_back s) = Nat.pred (String.length s).
Proof.
  destruct (snoc_cases s) as [-> | (s' & c & ->)]; [reflexivity|].
  rewrite pop_back_snoc, length_append. simpl. lia.
Qed.

Lemma erase_front_occurs (s : string) : occurs_in (erase_front s) s.
Proof.
  destruct s as [|c s]; [apply occurs_in_refl|].
  exists (str c), EmptyString. simpl. now rewrite append_empty_r.
Qed.

(** *** The clean-up *)

Lemma strip_leading_quote_occurs (r : string) :
  occurs_in (strip_leading_quote r) r.
Proof.
  unfold strip_leading_quote.
  destruct (_ && _); [apply erase_front_occurs | apply occurs_in_refl].
Qed.

Lemma strip_trailing_quote_occurs (r : string) :
  occurs_in (strip_trailing_quote r) r.
Proof.
  unfold strip_trailing_quote.
  destruct (_ && _); [apply pop_back_occurs | apply occurs_in_refl].
Qed.

Lemma trim_loop_occurs (n : nat) (r : string) : occurs_in (trim_loop n r) r.
Proof.
  revert r. induction n as [|n IH]; intros r; simpl.
  - apply occurs_in_refl.
  - destruct (_ && _); [|apply occurs_in_refl].
    eapply occurs_in_trans; [apply IH | apply pop_back_occurs].
Qed.

Lemma post_process_occurs (r : string) : occurs_in (post_process r) r.
Proof.
  unfold post_process, trim_trailing.
  eapply occurs_in_trans; [apply trim_loop_occurs|].
  eapply occurs_in_trans;
    [apply strip_trailing_quote_occurs | apply strip_leading_quote_occurs].
Qed.

Lemma post_process_no_marker (t r : string) :
  find t r = None -> find t (post_process r) = None.
Proof.
  intros H. apply not_occurs_find.
  eapply not_occurs_sub; [apply post_process_occurs | now apply find_none].
Qed.

Lemma list_ascii_append (a b : string) :
  list_ascii_of_string (a ++ b) =
  (list_ascii_of_string a ++ list_ascii_of_string b)%list.
Proof. induction a as [|c a IH]; simpl; [reflexivity | now rewrite IH]. Qed.

Lemma strip_leading_quote_spec (r : string) :
  list_ascii_of_string (strip_leading_quote r) =
  spec_strip_leading (list_ascii_of_string r).
Proof.
  destruct r as [|c r]; [reflexivity|].
  unfold strip_leading_quote; simpl. now destruct (Ascii.eqb c DQUOTE).
Qed.

Lemma strip_trailing_quote_snoc (s : string) (c : ascii) :
  strip_trailing_quote (s ++ str c) =
  if Ascii.eqb c DQUOTE then s else s ++ str c.
Proof.
  unfold strip_trailing_quote. rewrite back_snoc, pop_back_snoc.
  destruct s; simpl; reflexivity.
Qed.

Lemma strip_trailing_quote_spec (r : string) :
  list_ascii_of_string (strip_trailing_quote r) =
  spec_strip_trailing (list_ascii_of_string r).
Proof.
  destruct (snoc_cases r) as [-> | (s & c & ->)]; [reflexivity|].
  rewrite strip_trailing_quote_snoc. unfold spec_strip_trailing.
  rewrite list_ascii_append. simpl. rewrite rev_app_distr. simpl.
  destruct (Ascii.eqb c DQUOTE).
  - now rewrite rev_involutive.
  - simpl. rewrite rev_involutive. now rewrite list_ascii_append.
Qed.

Lemma trim_loop_snoc (n : nat) (s : string) (c : ascii) :
  trim_loop (S n) (s ++ str c) =
  if is_trailing_ws c then trim_loop n s else s ++ str c.
Proof.
  simpl. rewrite back_snoc, pop_back_snoc. now destruct s.
Qed.

Lemma trim_loop_spec (n : nat) (r : string) :
  (String.length r <= n)%nat ->
  list_ascii_of_string (trim_loop n r) = spec_trim (list_ascii_of_string r).
Proof.
  revert r. induction n as [|n IH]; intros r Hl.
  - destruct r; [reflexivity | simpl in Hl; lia].
  - destruct (snoc_cases r) as [-> | (s & c & ->)]; [reflexivity|].
    rewrite trim_loop_snoc. unfold spec_trim.
    rewrite !list_ascii_append. simpl. rewrite rev_app_distr. simpl.
    rewrite length_append in Hl. simpl in Hl.
    destruct (is_trailing_ws c).
    + rewrite IH by lia. reflexivity.
    + simpl. rewrite rev_involutive. now rewrite list_ascii_append.
Qed.

Lemma post_process_spec (r : string) : post_process r = spec_post_process r.
Proof.
  unfold post_process, spec_post_process, trim_trailing.
  rewrite <- (string_of_list_ascii_of_string (trim_loop _ _)).
  rewrite trim_loop_spec by apply le_n.
  now rewrite strip_trailing_quote_spec, strip_leading_quote_spec.
Qed.

(** When the [while] loop ends, its condition is false. *)
Lemma trim_loop_done (n : nat) (r : string) :
  (String.length r <= n)%nat ->
  match back (trim_loop n r) with
  | Some c => is_trailing_ws c = false
  | None => trim_loop n r = EmptyString
  end.
Proof.
  revert r. induction n as [|n IH]; intros r Hl.
  - destruct r; [reflexivity | simpl in Hl; lia].
  - destruct (snoc_cases r) as [-> | (s & c & ->)]; [reflexivity|].
    rewrite trim_loop_snoc. rewrite length_append in Hl. simpl in Hl.
    destruct (is_trailing_ws c) eqn:Hc.
    + apply IH. lia.
    + now rewrite back_snoc.
Qed.

Lemma post_process_quoted (s : string) :
  post_process (String DQUOTE (s ++ str DQUOTE)) = trim_trailing s.
Proof.
  unfold post_process. unfold strip_leading_quote at 1. simpl.
  now rewrite strip_trailing_quote_snoc.
Qed.

(** * Facts about the decode loop *)

Local Open Scope list_scope.
Local Open Scope Z_scope.

Lemma samples_snoc (tr : list Event) (e : Event) :
  samples (tr ++ [e]) = (samples tr + (if is_sample e then 1 else 0))%nat.
Proof.
  unfold samples. rewrite filter_app, length_app. simpl.
  now destruct (is_sample e).
Qed.

Section Loop.

Variable E : Engine.

Implicit Types st : LoopState E.

(** Each iteration draws exactly one token. *)
Lemma loop_body_samples st :
  match loop_body E st with
  | Break st' | Next st' => samples (trace st') = S (samples (trace st))
  end.
Proof.
  unfold loop_body. break_step; simpl; rewrite ?samples_snoc; simpl; lia.
Qed.

Lemma decode_loop_samples (n : nat) st :
  (samples (trace (decode_loop E n st)) <= samples (trace st) + n)%nat.
Proof.
  revert st. induction n as [|n IH]; intros st; simpl; [lia|].
  pose proof (loop_body_samples st) as H.
  destruct (loop_body E st) as [st'|st']; [lia|].
  specialize (IH st'). lia.
Qed.

Lemma run_iterations_samples (k : nat) st st' :
  run_iterations E k st = Some st' ->
  samples (trace st') = (samples (trace st) + k)%nat.
Proof.
  revert st. induction k as [|k IH]; intros st; simpl.
  - intros [= ->]. lia.
  - pose proof (loop_body_samples st) as H.
    destruct (loop_body E st) as [?|st1]; [discriminate|].
    intros Hr. rewrite (IH _ Hr). lia.
Qed.

Lemma decode_loop_split (k n : nat) st st' :
  run_iterations E k st = Some st' ->
  decode_loop E (k + n) st = decode_loop E n st'.
Proof.
  revert st. induction k as [|k IH]; intros st; simpl.
  - now intros [= ->].
  - destruct (loop_body E st) as [?|st1]; [discriminate | apply IH].
Qed.

Lemma decode_loop_exhausted (k : nat) st st' :
  run_iterations E k st = Some st' -> decode_loop E k st = st'.
Proof.
  intros H. rewrite <- (Nat.add_0_r k). now rewrite (decode_loop_split _ 0 _ _ H).
Qed.

Lemma newline_rule_nonneg (piece : string) (cn : Z) :
  0 <= cn -> 0 <= fst (newline_rule piece cn).
Proof.
  unfold newline_rule. intros H.
  destruct (String.eqb _ _); simpl; [lia|].
  destruct (find_first_not_of _ _); simpl; lia.
Qed.

(** The accumulated text never holds the stop marker when an iteration
    ends, whether the loop goes on or not. *)
Lemma loop_body_inv st :
  loop_inv st ->
  match loop_body E st with
  | Break st' => find stop_str (result st') = None
  | Next st' => loop_inv st'
  end.
Proof.
  intros [Hcn Hres]. unfold loop_body, loop_inv.
  destruct (llama_sampler_sample E (sampler st) (lctx st)) as [tok smp].
  destruct (llama_vocab_is_eog E tok); [exact Hres|].
  destruct (llama_token_to_piece E tok 256) as [len buf].
  destruct (len <? 0)%Z; [now split|].
  destruct (find stop_str (result st ++ _)%string) as [k|] eqn:Hf.
  - simpl. apply not_occurs_find. now apply (find_some _ _ _ _ Hf).
  - pose proof (newline_rule_nonneg (substr0 (Z.to_nat len) buf) _ Hcn) as Hn.
    destruct (newline_rule _ _) as [cn stop]. simpl in Hn.
    destruct stop; [exact Hf|].
    destruct (llama_decode E (lctx st) [tok]) as [status c].
    destruct (negb (status =? 0)); simpl; [exact Hf | now split].
Qed.

Lemma decode_loop_no_marker (n : nat) st :
  loop_inv st -> find stop_str (result (decode_loop E n st)) = None.
Proof.
  revert st. induction n as [|n IH]; intros st Hinv; simpl.
  - apply Hinv.
  - pose proof (loop_body_inv st Hinv) as H.
    destruct (loop_body E st) as [st'|st']; [exact H | now apply IH].
Qed.

Lemma run_iterations_inv (k : nat) st st' :
  loop_inv st -> run_iterations E k st = Some st' -> loop_inv st'.
Proof.
  revert st. induction k as [|k IH]; intros st Hinv; simpl.
  - now intros [= <-].
  - pose proof (loop_body_inv st Hinv) as H.
    destruct (loop_body E st) as [?|st1]; [discriminate | now apply IH].
Qed.

Lemma loop_init_inv (s : Impl E) (diff : string) : loop_inv (loop_init E s diff).
Proof. split; [simpl; lia | reflexivity]. Qed.

(** The three ways out of [generate] once the session is ready. *)
Lemma generate_ready (s : Impl E) (diff : string) :
  ready (session (generate E s diff)) = ready s.
Proof.
  unfold generate, is_ready.
  destruct (ready s) eqn:Hr; simpl; [|exact Hr].
  destruct (_ <? 0)%Z; simpl; [reflexivity|].
  destruct (negb _); reflexivity.
Qed.

Lemma generate_runs_loop (s : Impl E) (diff : string) :
  ready s = true ->
  0 <= fst (tokenized E diff) ->
  fst (prompt_decoded E s diff) = 0 ->
  generate E s diff =
  let st := decode_loop E MAX_ITERATIONS (loop_init E s diff) in
  {| output := post_process (result st); exit := RetResult;
     session := {| ready := ready s; ctx := lctx st |};
     calls := trace st ++ [EvSamplerFree; EvUnlock] |}.
Proof.
  intros Hr Ht Hd. unfold generate, is_ready. rewrite Hr. simpl.
  destruct (Z.ltb_spec (fst (tokenized E diff)) 0) as [?|_]; [lia|].
  rewrite Hd. reflexivity.
Qed.

(** Where a run stands after [k] complete iterations, and what remains. *)
Lemma generate_from (s : Impl E) (diff : string) (k : nat) st :
  ready s = true ->
  0 <= fst (tokenized E diff) ->
  fst (prompt_decoded E s diff) = 0 ->
  (k <= MAX_ITERATIONS)%nat ->
  run_iterations E k (loop_init E s diff) = Some st ->
  generate E s diff =
  let st' := decode_loop E (MAX_ITERATIONS - k) st in
  {| output := post_process (result st'); exit := RetResult;
     session := {| ready := ready s; ctx := lctx st' |};
     calls := trace st' ++ [EvSamplerFree; EvUnlock] |}.
Proof.
  intros Hr Ht Hd Hk Hrun. rewrite generate_runs_loop by assumption.
  assert (Hsplit : decode_loop E MAX_ITERATIONS (loop_init E s diff) =
                   decode_loop E (MAX_ITERATIONS - k) st).
  { rewrite <- (decode_loop_split _ _ _ _ Hrun). f_equal. lia. }
  cbv zeta. now rewrite Hsplit.
Qed.

End Loop.

(** * Runs from indistinguishable contexts *)

Section Determinism.

Variable E : Engine.
Variable R : llama_context E -> llama_context E -> Prop.
Hypothesis HR : ResetClears E R.

Lemma loop_body_rel (a b : LoopState E) :
  state_rel R a b ->
  match loop_body E a, loop_body E b with
  | Break a', Break b' | Next a', Next b' => state_rel R a' b'
  | _, _ => False
  end.
Proof.
  destruct a as [sa ca ra na ta], b as [sb cb rb nb tb].
  unfold state_rel; simpl. intros (-> & Hc & -> & -> & ->).
  unfold loop_body; simpl.
  rewrite (sample_related E R HR sb ca cb Hc).
  destruct (llama_sampler_sample E sb cb) as [tok smp].
  destruct (llama_vocab_is_eog E tok); [now repeat split|].
  destruct (llama_token_to_piece E tok 256) as [len buf].
  destruct (len <? 0); [now repeat split|].
  destruct (find stop_str _); [now repeat split|].
  destruct (newline_rule _ _) as [cn stop].
  destruct stop; [now repeat split|].
  destruct (decode_related E R HR ca cb [tok] Hc) as [Hs Hc'].
  destruct (llama_decode E ca [tok]) as [s1 c1].
  destruct (llama_decode E cb [tok]) as [s2 c2].
  simpl in Hs, Hc'. subst s2.
  destruct (negb (s1 =? 0)); now repeat split.
Qed.

Lemma decode_loop_rel (n : nat) (a b : LoopState E) :
  state_rel R a b ->
  state_rel R (decode_loop E n a) (decode_loop E n b).
Proof.
  revert a b. induction n as [|n IH]; intros a b Hab; simpl; [exact Hab|].
  pose proof (loop_body_rel a b Hab) as H.
  destruct (loop_body E a), (loop_body E b); try contradiction; auto.
Qed.

Lemma prompt_decoded_rel (s1 s2 : Impl E) (diff : string) :
  fst (prompt_decoded E s1 diff) = fst (prompt_decoded E s2 diff) /\
  R (snd (prompt_decoded E s1 diff)) (snd (prompt_decoded E s2 diff)).
Proof.
  unfold prompt_decoded. apply (decode_related E R HR).
  apply (reset_related E R HR).
Qed.

(** A call does not depend on the context state it starts from. *)
Lemma generate_rel (s1 s2 : Impl E) (diff : string) :
  ready s1 = ready s2 ->
  output (generate E s1 diff) = output (generate E s2 diff) /\
  exit (generate E s1 diff) = exit (generate E s2 diff) /\
  calls (generate E s1 diff) = calls (generate E s2 diff).
Proof.
  intros Hr. unfold generate, is_ready. rewrite Hr.
  destruct (ready s2); cbn [negb]; [|now repeat split].
  destruct (fst (tokenized E diff) <? 0); [now repeat split|].
  destruct (prompt_decoded_rel s1 s2 diff) as [Hs Hc]. rewrite Hs.
  destruct (negb (fst (prompt_decoded E s2 diff) =? 0)); [now repeat split|].
  assert (Hi : state_rel R (loop_init E s1 diff) (loop_init E s2 diff)).
  { unfold state_rel, loop_init; simpl. rewrite Hs. now repeat split. }
  destruct (decode_loop_rel MAX_ITERATIONS _ _ Hi) as (_ & _ & Hres & _ & Htr).
  cbn [output exit calls]. rewrite Hres, Htr. now repeat split.
Qed.

End Determinism.

(** * The properties of [generate] *)

Local Open Scope string_scope.
Local Open Scope list_scope.
Local Open Scope Z_scope.

Lemma append_inj_l (a x y : string) : (a ++ x = a ++ y)%string -> x = y.
Proof. induction a as [|c a IH]; simpl; [auto | intros [= H]; auto]. Qed.

Lemma append_inj_r (x y b : string) : (x ++ b = y ++ b)%string -> x = y.
Proof.
  revert y. induction x as [|c x IH]; intros [|d y] H; simpl in H.
  - reflexivity.
  - apply (f_equal String.length) in H. simpl in H.
    rewrite length_append in H. lia.
  - apply (f_equal String.length) in H. simpl in H.
    rewrite length_append in H. lia.
  - injection H as -> H. f_equal. now apply IH.
Qed.

Lemma build_prompt_inj (d1 d2 : string) :
  build_prompt d1 = build_prompt d2 -> d1 = d2.
Proof.
  unfold build_prompt. intros H.
  apply append_inj_l in H. now apply append_inj_r in H.
Qed.

Lemma generate_prompt_only (E : Engine) (s : Impl E) (d1 d2 : string) :
  prompt_of d1 = prompt_of d2 -> generate E s d1 = generate E s d2.
Proof.
  intros H.
  unfold generate, loop_init, prologue, prompt_decoded, prompt_tokens, tokenized.
  now rewrite H.
Qed.

(** C1: a call on a session whose readiness flag is still false returns
    the empty string through the first return statement; it takes no
    lock, calls nothing in the library and leaves the session as it
    was. *)
Theorem generate_not_ready (E : Engine) (s : Impl E) (diff : string) :
  is_ready E s = false ->
  generate E s diff =
  {| output := EmptyString; exit := RetNotReady; session := s; calls := [] |}.
Proof. intros H. unfold generate. now rewrite H. Qed.

Lemma generate_not_ready_witness :
  let s := Scripted.loading (Scripted.play Examples.padded) in
  is_ready _ s = false /\
  generate _ s "diff --git a/x b/x" =
  {| output := EmptyString; exit := RetNotReady; session := s; calls := [] |}.
Proof.
  split; [reflexivity | apply generate_not_ready; reflexivity].
Defined.

(** C9: only the first 4000 bytes of the diff reach the prompt.  Two diffs
    give the same prompt exactly when their first 4000 bytes agree, and
    then the whole call is the same; in particular a diff and its own
    first 4000 bytes are interchangeable. *)
Theorem generate_truncates_diff (E : Engine) (s : Impl E) (d1 d2 : string) :
  (prompt_of d1 = prompt_of d2 <-> substr0 4000 d1 = substr0 4000 d2) /\
  (substr0 4000 d1 = substr0 4000 d2 -> generate E s d1 = generate E s d2) /\
  prompt_of (substr0 4000 d1) = prompt_of d1 /\
  generate E s (substr0 4000 d1) = generate E s d1 /\
  String.length (substr0 4000 d1) = Nat.min 4000 (String.length d1) /\
  (exists rest, d1 = substr0 4000 d1 ++ rest)%string.
Proof.
  assert (Hidem : prompt_of (substr0 4000 d1) = prompt_of d1).
  { unfold prompt_of. now rewrite substr0_idem. }
  repeat split.
  - apply build_prompt_inj.
  - unfold prompt_of. now intros ->.
  - intros H. apply generate_prompt_only. unfold prompt_of. now rewrite H.
  - exact Hidem.
  - now apply generate_prompt_only.
  - apply substr0_length.
  - apply substr0_split.
Qed.

Lemma generate_truncates_diff_witness :
  let s := Scripted.fresh (Scripted.play Examples.padded) in
  String.length Examples.long_diff = 5000%nat /\
  String.length (substr0 4000 Examples.long_diff) = 4000%nat /\
  prompt_of Examples.long_diff = prompt_of (substr0 4000 Examples.long_diff) /\
  generate _ s Examples.long_diff = generate _ s (substr0 4000 Examples.long_diff).
Proof.
  intros s.
  pose proof (generate_truncates_diff _ s Examples.long_diff
                (substr0 4000 Examples.long_diff)) as (H1 & H2 & _).
  assert (H : substr0 4000 Examples.long_diff =
              substr0 4000 (substr0 4000 Examples.long_diff))
    by (vm_compute; reflexivity).
  split; [vm_compute; reflexivity|].
  split; [vm_compute; reflexivity|].
  split; [apply H1, H | apply H2, H].
Defined.

(** C10: a call draws at most 512 tokens, whatever the engine answers,
    and the bound is reached by an engine that never produces a stop
    condition.  [generate] is a total function: every call returns. *)
Theorem generate_bounded :
  MAX_ITERATIONS = 512%nat /\
  (forall (E : Engine) (s : Impl E) (diff : string),
      exists r, generate E s diff = r /\
                (samples (calls r) <= MAX_ITERATIONS)%nat) /\
  samples (calls (generate _ (Scripted.fresh Examples.babble) "diff")) = 512%nat.
Proof.
  split; [reflexivity|]. split; [|vm_compute; reflexivity].
  intros E s diff. eexists; split; [reflexivity|].
  unfold generate.
  destruct (negb (is_ready E s)); [cbn; lia|].
  destruct (_ <? 0); [cbn; lia|].
  destruct (negb _); [cbn; lia|].
  cbn [calls]. unfold samples at 1. rewrite filter_app, length_app.
  fold (samples (trace (decode_loop E MAX_ITERATIONS (loop_init E s diff)))).
  pose proof (decode_loop_samples E MAX_ITERATIONS (loop_init E s diff)) as H.
  change (samples (trace (loop_init E s diff))) with 0%nat in H.
  cbn [filter is_sample Datatypes.length]. lia.
Qed.

Lemma trim_loop_split (n : nat) (r : string) :
  exists w, (r = trim_loop n r ++ w)%string /\
            forallb is_trailing_ws (list_ascii_of_string w) = true.
Proof.
  revert r. induction n as [|n IH]; intros r.
  - exists EmptyString. simpl. now rewrite append_empty_r.
  - destruct (snoc_cases r) as [-> | (s & c & ->)].
    + now exists EmptyString.
    + rewrite trim_loop_snoc. destruct (is_trailing_ws c) eqn:Hc.
      * destruct (IH s) as (w & Hw & Hall). exists (w ++ str c)%string. split.
        -- rewrite <- append_assoc. now rewrite <- Hw.
        -- rewrite list_ascii_append, forallb_app, Hall. simpl. now rewrite Hc.
      * exists EmptyString. simpl. now rewrite append_empty_r.
Qed.

(** C8: the clean-up removes one leading quote if the text starts with
    one, then one trailing quote if the text ends with one, then every
    trailing line feed and space: it agrees with the clean-up as the
    specification words it, the trimmed text is followed in the input only
    by line feeds and spaces and does not end with one, and the quoted
    text hello comes out as hello. *)
Theorem post_process_strips_and_trims (r : string) :
  post_process r = trim_trailing (strip_trailing_quote (strip_leading_quote r)) /\
  post_process r = spec_post_process r /\
  strip_leading_quote (String DQUOTE r) = r /\
  strip_trailing_quote (r ++ str DQUOTE) = r /\
  (exists w, (r = trim_trailing r ++ w)%string /\
             forallb is_trailing_ws (list_ascii_of_string w) = true) /\
  match back (trim_trailing r) with
  | Some c => is_trailing_ws c = false
  | None => trim_trailing r = EmptyString
  end /\
  post_process (Examples.quoted r) = trim_trailing r /\
  post_process (Examples.quoted "hello") = "hello".
Proof.
  repeat split.
  - apply post_process_spec.
  - rewrite strip_trailing_quote_snoc. reflexivity.
  - apply trim_loop_split.
  - apply trim_loop_done, le_n.
  - apply post_process_quoted.
Qed.

(** The iteration of a token that has no text (lines 129-130). *)
Lemma loop_body_unprintable (E : Engine) (st : LoopState E) :
  let tok := fst (llama_sampler_sample E (sampler st) (lctx st)) in
  let smp := snd (llama_sampler_sample E (sampler st) (lctx st)) in
  let len := fst (llama_token_to_piece E tok 256) in
  llama_vocab_is_eog E tok = false ->
  len < 0 ->
  loop_body E st =
  Next {| sampler := smp; lctx := lctx st; result := result st;
          consecutive_newlines := consecutive_newlines st;
          trace := (trace st ++ [EvSample tok]) ++ [EvTokenToPiece tok len] |}.
Proof.
  unfold loop_body.
  destruct (llama_sampler_sample E (sampler st) (lctx st)) as [t s]; simpl.
  intros ->. destruct (llama_token_to_piece E t 256) as [l b]; simpl.
  intros Hl. destruct (Z.ltb_spec l 0); [reflexivity | lia].
Qed.

(** The iteration of a token with text [piece] (lines 132-152). *)
Lemma loop_body_piece (E : Engine) (st : LoopState E) (piece : string) :
  sampled_piece E st = Some piece ->
  let tok := fst (llama_sampler_sample E (sampler st) (lctx st)) in
  let smp := snd (llama_sampler_sample E (sampler st) (lctx st)) in
  let len := fst (llama_token_to_piece E tok 256) in
  let tr := (trace st ++ [EvSample tok]) ++ [EvTokenToPiece tok len] in
  let res := (result st ++ piece)%string in
  loop_body E st =
  match find stop_str res with
  | Some k =>
      Break {| sampler := smp; lctx := lctx st; result := substr0 k res;
               consecutive_newlines := consecutive_newlines st; trace := tr |}
  | None =>
      let '(cn, stop) := newline_rule piece (consecutive_newlines st) in
      if stop then
        Break {| sampler := smp; lctx := lctx st; result := res;
                 consecutive_newlines := cn; trace := tr |}
      else
        let '(status, c) := llama_decode E (lctx st) [tok] in
        let st' := {| sampler := smp; lctx := c; result := res;
                      consecutive_newlines := cn;
                      trace := tr ++ [EvDecode [tok] status] |} in
        if negb (status =? 0) then Break st' else Next st'
  end.
Proof.
  unfold sampled_piece, loop_body.
  destruct (llama_sampler_sample E (sampler st) (lctx st)) as [t s]; simpl.
  destruct (llama_vocab_is_eog E t); [discriminate|].
  destruct (llama_token_to_piece E t 256) as [l b]; simpl.
  destruct (l <? 0); [discriminate|]. now intros [= <-].
Qed.

(** C3: when the conversion of a sampled token reports a negative length,
    the iteration appends nothing and feeds nothing to the context, and
    the loop goes on with the iterations that remain, from the same text,
    counter and context; the call leaves through the final return with
    the cleaned text of the continued loop. *)
Theorem conversion_failure_is_skipped
    (E : Engine) (s : Impl E) (diff : string) (k : nat) (st : LoopState E) :
  ready s = true ->
  0 <= fst (tokenized E diff) ->
  fst (prompt_decoded E s diff) = 0 ->
  (k < MAX_ITERATIONS)%nat ->
  run_iterations E k (loop_init E s diff) = Some st ->
  let tok := fst (llama_sampler_sample E (sampler st) (lctx st)) in
  let smp := snd (llama_sampler_sample E (sampler st) (lctx st)) in
  let len := fst (llama_token_to_piece E tok 256) in
  llama_vocab_is_eog E tok = false ->
  len < 0 ->
  let st' := {| sampler := smp; lctx := lctx st; result := result st;
                consecutive_newlines := consecutive_newlines st;
                trace := (trace st ++ [EvSample tok]) ++ [EvTokenToPiece tok len] |} in
  let final := decode_loop E (MAX_ITERATIONS - S k) st' in
  loop_body E st = Next st' /\
  run_iterations E (S k) (loop_init E s diff) = Some st' /\
  generate E s diff =
  {| output := post_process (result final); exit := RetResult;
     session := {| ready := ready s; ctx := lctx final |};
     calls := trace final ++ [EvSamplerFree; EvUnlock] |}.
Proof.
  intros Hr Ht Hd Hk Hrun tok smp len Heog Hlen st' final.
  pose proof (loop_body_unprintable E st Heog Hlen) as Hbody.
  assert (Hrun' : run_iterations E (S k) (loop_init E s diff) = Some st').
  { replace (S k) with (k + 1)%nat by lia.
    clear - Hrun Hbody. revert Hrun. generalize (loop_init E s diff).
    induction k as [|k IH]; intros st0; simpl.
    - intros [= ->]. now rewrite Hbody.
    - destruct (loop_body E st0); [discriminate | apply IH]. }
  split; [exact Hbody|]. split; [exact Hrun'|].
  apply (generate_from E s diff (S k) st' Hr Ht Hd); [lia | exact Hrun'].
Qed.

Lemma conversion_failure_is_skipped_witness :
  let r := generate _ (Scripted.fresh (Scripted.play Examples.hiccup)) "diff" in
  output r = "fix bug" /\ exit r = RetResult /\
  In (EvTokenToPiece 1 (-1)) (calls r) /\
  ~ In (EvDecode [1] 0) (calls r) /\
  In (EvDecode [2] 0) (calls r).
Proof.
  pose proof (conversion_failure_is_skipped
                (Scripted.engine (Scripted.play Examples.hiccup))
                (Scripted.fresh (Scripted.play Examples.hiccup)) "diff" 1
                {| sampler := 1%nat : llama_sampler (Scripted.engine _);
                   lctx := snd (prompt_decoded _ (Scripted.fresh (Scripted.play Examples.hiccup)) "diff") ++ [0];
                   result := "fix"; consecutive_newlines := 0;
                   trace := trace (loop_init _ (Scripted.fresh (Scripted.play Examples.hiccup)) "diff")
                            ++ [EvSample 0; EvTokenToPiece 0 3; EvDecode [0] 0] |}
                eq_refl) as H.
  specialize (H ltac:(vm_compute; discriminate) ltac:(vm_compute; reflexivity)
                ltac:(vm_compute; lia) ltac:(vm_compute; reflexivity)
                ltac:(vm_compute; reflexivity) ltac:(vm_compute; reflexivity)).
  destruct H as (_ & _ & H). rewrite H.
  vm_compute. repeat split; auto 20.
  intros Hin. repeat (destruct Hin as [Hin|Hin]; [discriminate Hin|]). exact Hin.
Defined.

(** A run whose iteration number [k + 1] leaves the loop. *)
Lemma generate_breaks
    (E : Engine) (s : Impl E) (diff : string) (k : nat) (st st' : LoopState E) :
  ready s = true ->
  0 <= fst (tokenized E diff) ->
  fst (prompt_decoded E s diff) = 0 ->
  (k < MAX_ITERATIONS)%nat ->
  run_iterations E k (loop_init E s diff) = Some st ->
  loop_body E st = Break st' ->
  generate E s diff =
  {| output := post_process (result st'); exit := RetResult;
     session := {| ready := ready s; ctx := lctx st' |};
     calls := trace st' ++ [EvSamplerFree; EvUnlock] |}.
Proof.
  intros Hr Ht Hd Hk Hrun Hbody.
  rewrite (generate_from E s diff k st Hr Ht Hd) by (assumption || lia).
  destruct (MAX_ITERATIONS - k)%nat as [|n] eqn:Hn; [lia|].
  cbv zeta. cbn [decode_loop]. now rewrite Hbody.
Qed.

(** C7: when the decode that feeds a sampled token back fails, the loop
    stops there and the call still leaves through the final return: its
    result is the clean-up of the text accumulated so far, the fragment
    of that token included, and nothing is sampled afterwards. *)
Theorem decode_failure_keeps_text
    (E : Engine) (s : Impl E) (diff : string) (k : nat) (st : LoopState E)
    (piece : string) :
  ready s = true ->
  0 <= fst (tokenized E diff) ->
  fst (prompt_decoded E s diff) = 0 ->
  (k < MAX_ITERATIONS)%nat ->
  run_iterations E k (loop_init E s diff) = Some st ->
  sampled_piece E st = Some piece ->
  find stop_str (result st ++ piece) = None ->
  snd (newline_rule piece (consecutive_newlines st)) = false ->
  let tok := fst (llama_sampler_sample E (sampler st) (lctx st)) in
  let len := fst (llama_token_to_piece E tok 256) in
  let status := fst (llama_decode E (lctx st) [tok]) in
  status <> 0 ->
  let r := generate E s diff in
  output r = post_process (result st ++ piece) /\
  exit r = RetResult /\
  calls r = (((trace st ++ [EvSample tok]) ++ [EvTokenToPiece tok len])
             ++ [EvDecode [tok] status]) ++ [EvSamplerFree; EvUnlock] /\
  samples (calls r) = S k.
Proof.
  intros Hr Ht Hd Hk Hrun Hp Hf Hnl tok len status Hs r.
  pose proof (loop_body_piece E st piece Hp) as Hbody.
  cbv zeta in Hbody. rewrite Hf in Hbody.
  destruct (newline_rule piece (consecutive_newlines st)) as [cn stop].
  simpl in Hnl. subst stop.
  fold tok in Hbody. fold len in Hbody. unfold status in Hs. subst status.
  destruct (llama_decode E (lctx st) [tok]) as [stt c]. simpl in Hs |- *.
  destruct (Z.eqb_spec stt 0) as [?|_]; [contradiction|]. simpl in Hbody.
  subst r. rewrite (generate_breaks E s diff k st _ Hr Ht Hd Hk Hrun Hbody).
  cbn [output exit calls result trace]. repeat split.
  unfold samples. rewrite !filter_app, !length_app.
  fold (samples (trace st)). rewrite (run_iterations_samples E k _ _ Hrun).
  change (samples (trace (loop_init E s diff))) with 0%nat.
  cbn [filter is_sample Datatypes.length]. lia.
Qed.

Lemma decode_failure_keeps_text_witness :
  let r := generate _ (Scripted.fresh (Scripted.play Examples.refused)) "diff" in
  output r = "fix the bug" /\ exit r = RetResult /\ samples (calls r) = 3%nat.
Proof.
  pose proof (decode_failure_keeps_text
                (Scripted.engine (Scripted.play Examples.refused))
                (Scripted.fresh (Scripted.play Examples.refused)) "diff" 2
                {| sampler := 2%nat : llama_sampler (Scripted.engine _);
                   lctx := (snd (prompt_decoded _ (Scripted.fresh (Scripted.play Examples.refused)) "diff") ++ [0]) ++ [1];
                   result := "fix the"; consecutive_newlines := 0;
                   trace := trace (loop_init _ (Scripted.fresh (Scripted.play Examples.refused)) "diff")
                            ++ [EvSample 0; EvTokenToPiece 0 3; EvDecode [0] 0;
                                EvSample 1; EvTokenToPiece 1 4; EvDecode [1] 0] |}
                " bug" eq_refl) as H.
  specialize (H ltac:(vm_compute; discriminate) ltac:(vm_compute; reflexivity)
                ltac:(vm_compute; lia) ltac:(vm_compute; reflexivity)
                ltac:(vm_compute; reflexivity) ltac:(vm_compute; reflexivity)
                ltac:(vm_compute; reflexivity) ltac:(vm_compute; discriminate)).
  destruct H as (H1 & H2 & _ & H4). cbv zeta. rewrite H1, H2, H4.
  repeat split.
Defined.

Lemma generate_no_marker (E : Engine) (s : Impl E) (diff : string) :
  find stop_str (output (generate E s diff)) = None.
Proof.
  unfold generate.
  destruct (negb (is_ready E s)); [reflexivity|].
  destruct (_ <? 0); [reflexivity|].
  destruct (negb _); [reflexivity|].
  cbn [output]. apply post_process_no_marker, decode_loop_no_marker, loop_init_inv.
Qed.

(** C4: the returned string never contains the stop marker.  When the
    fragment of some iteration makes the accumulated text contain the
    marker, the loop stops in that iteration without decoding the token,
    and the call returns the clean-up of the text that precedes the first
    occurrence of the marker. *)
Theorem stop_marker_truncates (E : Engine) (s : Impl E) (diff : string) :
  ~ occurs_in stop_str (output (generate E s diff)) /\
  forall (k : nat) (st : LoopState E) (piece : string),
    ready s = true ->
    0 <= fst (tokenized E diff) ->
    fst (prompt_decoded E s diff) = 0 ->
    (k < MAX_ITERATIONS)%nat ->
    run_iterations E k (loop_init E s diff) = Some st ->
    sampled_piece E st = Some piece ->
    occurs_in stop_str (result st ++ piece) ->
    let tok := fst (llama_sampler_sample E (sampler st) (lctx st)) in
    let len := fst (llama_token_to_piece E tok 256) in
    exists (j : nat) (rest : string),
      find stop_str (result st ++ piece) = Some j /\
      (result st ++ piece = substr0 j (result st ++ piece) ++ stop_str ++ rest)%string /\
      ~ occurs_in stop_str (substr0 j (result st ++ piece)) /\
      output (generate E s diff) = post_process (substr0 j (result st ++ piece)) /\
      exit (generate E s diff) = RetResult /\
      calls (generate E s diff) =
        ((trace st ++ [EvSample tok]) ++ [EvTokenToPiece tok len])
        ++ [EvSamplerFree; EvUnlock].
Proof.
  split; [apply find_none, generate_no_marker|].
  intros k st piece Hr Ht Hd Hk Hrun Hp Hocc tok len.
  destruct (find stop_str (result st ++ piece)) as [j|] eqn:Hf;
    [|now apply find_none in Hf].
  destruct (find_some "<"%char "|im_end|>" _ j Hf) as ((rest & Hsplit) & Hno).
  exists j, rest. split; [reflexivity|]. split; [exact Hsplit|].
  split; [exact Hno|].
  pose proof (loop_body_piece E st piece Hp) as Hbody.
  cbv zeta in Hbody. rewrite Hf in Hbody.
  rewrite (generate_breaks E s diff k st _ Hr Ht Hd Hk Hrun Hbody).
  repeat split.
Qed.

Lemma stop_marker_truncates_witness :
  let r := generate _ (Scripted.fresh (Scripted.play Examples.echoed)) "diff" in
  occurs_in stop_str ("text<|im" ++ "_end|>more text") /\
  output r = "text" /\ exit r = RetResult /\ samples (calls r) = 2%nat.
Proof.
  assert (Hocc : occurs_in stop_str ("text<|im" ++ "_end|>more text"))
    by (exists "text", "more text"; reflexivity).
  pose proof (proj2 (stop_marker_truncates
                (Scripted.engine (Scripted.play Examples.echoed))
                (Scripted.fresh (Scripted.play Examples.echoed)) "diff") 1%nat
                {| sampler := 1%nat : llama_sampler (Scripted.engine _);
                   lctx := snd (prompt_decoded _ (Scripted.fresh (Scripted.play Examples.echoed)) "diff") ++ [0];
                   result := "text<|im"; consecutive_newlines := 0;
                   trace := trace (loop_init _ (Scripted.fresh (Scripted.play Examples.echoed)) "diff")
                            ++ [EvSample 0; EvTokenToPiece 0 8; EvDecode [0] 0] |}
                "_end|>more text" eq_refl) as H.
  specialize (H ltac:(vm_compute; discriminate) ltac:(vm_compute; reflexivity)
                ltac:(vm_compute; lia) ltac:(vm_compute; reflexivity)
                ltac:(vm_compute; reflexivity) Hocc).
  destruct H as (j & rest & Hj & _ & _ & Hout & Hexit & Hcalls).
  vm_compute in Hj. injection Hj as <-.
  cbv zeta. rewrite Hout, Hexit, Hcalls.
  split; [exact Hocc|]. repeat split.
Defined.

(** *** The newline counter *)

Lemma blank_is_whitespace (c : ascii) :
  mem_ascii c (String SPACE (str TAB)) = true -> is_whitespace c = true.
Proof.
  simpl. rewrite orb_false_r. intros H. apply orb_prop in H.
  destruct H as [H|H]; apply Ascii.eqb_eq in H; subst c; reflexivity.
Qed.

Lemma blank_only_whitespace (p : string) :
  blank_only p = true -> whitespace_only p = true.
Proof.
  unfold blank_only, whitespace_only.
  induction (list_ascii_of_string p) as [|c l IH]; simpl; [reflexivity|].
  intros H. apply andb_prop in H as [Hc Hl].
  now rewrite (blank_is_whitespace c Hc), IH.
Qed.

Lemma find_first_not_of_blank (p : string) :
  find_first_not_of (String SPACE (str TAB)) p = None <-> blank_only p = true.
Proof.
  unfold blank_only. induction p as [|c p IH]; [now split|].
  cbn [find_first_not_of list_ascii_of_string forallb].
  destruct (mem_ascii c (String SPACE (str TAB))); cbn [andb].
  - rewrite <- IH. destruct (find_first_not_of _ p); simpl; split;
      congruence.
  - split; discriminate.
Qed.

Lemma newline_rule_resets (piece : string) (cn : Z) :
  whitespace_only piece = false -> newline_rule piece cn = (0, false).
Proof.
  intros Hw. unfold newline_rule.
  destruct (String.eqb_spec piece (str LF)) as [->|_]; [discriminate Hw|].
  destruct (find_first_not_of _ piece) eqn:Hf; [reflexivity|].
  apply find_first_not_of_blank, blank_only_whitespace in Hf. congruence.
Qed.

Lemma newline_rule_keeps (piece : string) (cn : Z) :
  blank_only piece = true -> newline_rule piece cn = (cn, false).
Proof.
  intros Hb. unfold newline_rule.
  destruct (String.eqb_spec piece (str LF)) as [->|_]; [discriminate Hb|].
  apply find_first_not_of_blank in Hb. now rewrite Hb.
Qed.

Lemma newline_continues (E : Engine) (st st' : LoopState E) :
  sampled_piece E st = Some (str LF) ->
  loop_body E st = Next st' ->
  consecutive_newlines st' = consecutive_newlines st + 1.
Proof.
  intros Hp. rewrite (loop_body_piece E st _ Hp). cbv zeta.
  destruct (find stop_str _); [discriminate|].
  unfold newline_rule. rewrite String.eqb_refl.
  destruct (3 <=? _); [discriminate|].
  destruct (llama_decode E (lctx st) _) as [status c].
  destruct (negb _); [discriminate|]. now intros [= <-].
Qed.

Lemma newline_stops (E : Engine) (st : LoopState E) :
  sampled_piece E st = Some (str LF) ->
  2 <= consecutive_newlines st ->
  exists st', loop_body E st = Break st' /\ lctx st' = lctx st /\
              samples (trace st') = S (samples (trace st)).
Proof.
  intros Hp Hcn. rewrite (loop_body_piece E st _ Hp). cbv zeta.
  destruct (find stop_str _).
  - eexists; split; [reflexivity|]. split; [reflexivity|].
    cbn [trace]. rewrite !samples_snoc. simpl. lia.
  - unfold newline_rule. rewrite String.eqb_refl.
    destruct (Z.leb_spec 3 (consecutive_newlines st + 1)); [|lia].
    eexists; split; [reflexivity|]. split; [reflexivity|].
    cbn [trace]. rewrite !samples_snoc. simpl. lia.
Qed.

(** What the newline rule does as written: in a run of the decode loop,
    the third of three successive iterations whose fragment is a single
    line feed leaves the loop without decoding its token, so the stream
    ok, LF, LF, LF, ignored returns ok; a fragment that contains a
    non-whitespace byte resets the counter to zero; a fragment made of
    spaces and tabs only leaves the counter as it is. *)
Theorem newline_heuristic (E : Engine) :
  (forall (s : Impl E) (diff : string) (k : nat) (st1 st2 st3 : LoopState E),
      run_iterations E k (loop_init E s diff) = Some st1 ->
      sampled_piece E st1 = Some (str LF) -> loop_body E st1 = Next st2 ->
      sampled_piece E st2 = Some (str LF) -> loop_body E st2 = Next st3 ->
      sampled_piece E st3 = Some (str LF) ->
      exists st4, loop_body E st3 = Break st4 /\ lctx st4 = lctx st3 /\
                  samples (trace st4) = S (samples (trace st3))) /\
  (forall (piece : string) (cn : Z),
      whitespace_only piece = false -> newline_rule piece cn = (0, false)) /\
  (forall (piece : string) (cn : Z),
      blank_only piece = true -> newline_rule piece cn = (cn, false)) /\
  output (generate _ (Scripted.fresh (Scripted.play Examples.padded)) "diff") = "ok".
Proof.
  split; [|split; [exact newline_rule_resets | split; [exact newline_rule_keeps|]]].
  - intros s diff k st1 st2 st3 Hrun Hp1 Hb1 Hp2 Hb2 Hp3.
    apply newline_stops; [exact Hp3|].
    pose proof (run_iterations_inv E k _ _ (loop_init_inv E s diff) Hrun) as [Hcn _].
    rewrite (newline_continues E st2 st3 Hp2 Hb2).
    rewrite (newline_continues E st1 st2 Hp1 Hb1). lia.
  - vm_compute. reflexivity.
Qed.

Lemma newline_heuristic_witness :
  exists st4,
    loop_body _ (Examples.state_after Examples.padded 3) = Break st4 /\
    lctx st4 = lctx (Examples.state_after Examples.padded 3) /\
    samples (trace st4) = 4%nat /\
    newline_rule "x y" 2 = (0, false) /\
    newline_rule (String SPACE (str TAB)) 2 = (2, false).
Proof.
  pose proof (newline_heuristic (Scripted.engine (Scripted.play Examples.padded)))
    as (H1 & H2 & H3 & _).
  destruct (H1 (Scripted.fresh (Scripted.play Examples.padded)) "diff" 1%nat
              (Examples.state_after Examples.padded 1)
              (Examples.state_after Examples.padded 2)
              (Examples.state_after Examples.padded 3))
    as (st4 & Hb & Hc & Hs); try (vm_compute; reflexivity).
  exists st4. split; [exact Hb|]. split; [exact Hc|].
  split; [rewrite Hs; vm_compute; reflexivity|].
  split; [apply H2 | apply H3]; vm_compute; reflexivity.
Defined.

(** C2: three consecutive newline-only fragments are to stop the loop and
    a whitespace-only fragment is never to reset the counter (line 141:
    stop after 3 consecutive newlines).  The code does not do so on the
    stream ok, LF, LF, LF LF, LF, tail: the fragment made of two line
    feeds is whitespace only, yet the test of line 146 finds a byte other
    than space and tab in it and puts the counter back from 2 to 0; the
    loop goes on through five consecutive line feeds and the call returns
    a text that includes tail. *)
Lemma whitespace_fragment_resets_counter :
  whitespace_only (Scripted.nl ++ Scripted.nl) = true /\
  newline_rule (Scripted.nl ++ Scripted.nl) 2 = (0, false) /\
  output (generate _ (Scripted.fresh (Scripted.play Examples.double_newline)) "diff")
  = ("ok" ++ Scripted.nl ++ Scripted.nl ++ Scripted.nl ++ Scripted.nl
          ++ Scripted.nl ++ "tail")%string /\
  ~ (forall (piece : string) (cn : Z),
        whitespace_only piece = true -> 0 < cn ->
        fst (newline_rule piece cn) <> 0).
Proof.
  repeat split.
  intros H. apply (H (Scripted.nl ++ Scripted.nl)%string 2); [reflexivity | lia |].
  reflexivity.
Qed.

(** *** Successive calls *)

Lemma scripted_reset_clears (sc : Scripted.Script) :
  ResetClears (Scripted.engine sc) eq.
Proof.
  split.
  - reflexivity.
  - intros c1 c2 batch ->. now split.
  - now intros smp c1 c2 ->.
Qed.

(** Without a reset that clears, the second call sees the first. *)
Remark leaky_reset_is_observable :
  let s := {| ready := true; ctx := 0%nat : llama_context Examples.leaky |} in
  output (generate Examples.leaky s "diff") = "aa" /\
  output (generate Examples.leaky (session (generate Examples.leaky s "diff")) "diff")
  = EmptyString.
Proof. split; vm_compute; reflexivity. Qed.



(** C6 (as amended): generate returns the empty string whenever the
    tokenization of the prompt reports a negative count or the decode of
    the prompt reports a non-zero status, and on a ready session it leaves
    through a failing return exactly in those two cases, without having
    sampled.  The converse on the returned string does not hold: the empty
    string is also what a session that is not ready returns, and what a
    completed call returns when the clean-up of the generated text is
    empty; these four cases are all the cases.  When both steps succeed
    the call returns the clean-up of the text of the decode loop.  The
    readiness flag is unchanged, and, provided that clearing the sequence
    memory leads to indistinguishable states, the next call behaves as if
    this one had not been made. *)
Theorem generate_empty_string_cases (E : Engine) (s : Impl E) (diff : string) :
  let r := generate E s diff in
  let n_tokens := fst (tokenized E diff) in
  let status := fst (prompt_decoded E s diff) in
  let text := post_process (result (decode_loop E MAX_ITERATIONS (loop_init E s diff))) in
  (ready s = false -> output r = EmptyString /\ exit r = RetNotReady) /\
  (ready s = true -> n_tokens < 0 ->
     output r = EmptyString /\ exit r = RetTokenizeFailed /\
     samples (calls r) = 0%nat) /\
  (ready s = true -> 0 <= n_tokens -> status <> 0 ->
     output r = EmptyString /\ exit r = RetDecodeFailed /\
     samples (calls r) = 0%nat) /\
  (ready s = true -> 0 <= n_tokens -> status = 0 ->
     output r = text /\ exit r = RetResult) /\
  (ready s = true ->
     (exit r = RetTokenizeFailed \/ exit r = RetDecodeFailed <->
      n_tokens < 0 \/ (0 <= n_tokens /\ status <> 0))) /\
  (output r = EmptyString <->
     ready s = false \/ n_tokens < 0 \/ status <> 0 \/ text = EmptyString) /\
  ready (session r) = ready s /\
  (forall R : llama_context E -> llama_context E -> Prop,
      ResetClears E R ->
      forall diff' : string,
        output (generate E (session r) diff') = output (generate E s diff') /\
        exit (generate E (session r) diff') = exit (generate E s diff') /\
        calls (generate E (session r) diff') = calls (generate E s diff')).
Proof.
  intros r n_tokens status text.
  assert (Hready : ready (session r) = ready s) by apply generate_ready.
  assert (Hnext : forall R, ResetClears E R -> forall diff',
             output (generate E (session r) diff') = output (generate E s diff') /\
             exit (generate E (session r) diff') = exit (generate E s diff') /\
             calls (generate E (session r) diff') = calls (generate E s diff')).
  { intros R HR diff'. now apply (generate_rel E R HR). }
  cut ((ready s = false -> output r = EmptyString /\ exit r = RetNotReady) /\
       (ready s = true -> n_tokens < 0 ->
          output r = EmptyString /\ exit r = RetTokenizeFailed /\
          samples (calls r) = 0%nat) /\
       (ready s = true -> 0 <= n_tokens -> status <> 0 ->
          output r = EmptyString /\ exit r = RetDecodeFailed /\
          samples (calls r) = 0%nat) /\
       (ready s = true -> 0 <= n_tokens -> status = 0 ->
          output r = text /\ exit r = RetResult) /\
       (ready s = true ->
          (exit r = RetTokenizeFailed \/ exit r = RetDecodeFailed <->
           n_tokens < 0 \/ (0 <= n_tokens /\ status <> 0))) /\
       (output r = EmptyString <->
          ready s = false \/ n_tokens < 0 \/ status <> 0 \/ text = EmptyString)).
  { intros (A & B & C & D & F & G). repeat (split; [assumption|]). assumption. }
  clear Hready Hnext. subst r text n_tokens status. unfold generate, is_ready.
  destruct (ready s); cbn [negb].
  - destruct (Z.ltb_spec (fst (tokenized E diff)) 0) as [Hneg|Hpos].
    + cbn [exit output calls].
      split; [discriminate|]. split; [intros _ _; repeat split|].
      split; [intros _ H; lia|]. split; [intros _ H; lia|].
      split; [intros _; split; [intros _; now left | intros _; now left]|].
      split; [intros _; right; now left | reflexivity].
    + destruct (Z.eqb_spec (fst (prompt_decoded E s diff)) 0) as [Hz|Hnz];
        cbn [negb exit output calls].
      * split; [discriminate|]. split; [intros _ H; lia|].
        split; [intros _ _ H; contradiction|].
        split; [intros _ _ _; split; reflexivity|].
        split; [intros _; split;
                  [intros [H|H]; discriminate H
                  | intros [H|[_ H]]; [lia | contradiction]]|].
        split; [intros H; now repeat right|].
        intros [H|[H|[H|H]]]; [discriminate H | lia | contradiction | exact H].
      * split; [discriminate|]. split; [intros _ H; lia|].
        split; [intros _ _ _; repeat split|].
        split; [intros _ _ H; contradiction|].
        split; [intros _; split; [intros _; right; now split | intros _; now right]|].
        split; [intros _; right; right; now left | reflexivity].
  - cbn [exit output calls].
    split; [intros _; split; reflexivity|].
    split; [discriminate|]. split; [discriminate|]. split; [discriminate|].
    split; [discriminate|].
    split; [intros _; now left | reflexivity].
Qed.

Lemma generate_empty_string_cases_witness :
  let s := Scripted.fresh Examples.no_tokens in
  let s' := Scripted.fresh Examples.no_decode in
  let s'' := Scripted.fresh (Scripted.play Examples.hiccup) in
  (output (generate _ s "diff") = EmptyString /\
   exit (generate _ s "diff") = RetTokenizeFailed /\
   samples (calls (generate _ s "diff")) = 0%nat) /\
  (output (generate _ s' "diff") = EmptyString /\
   exit (generate _ s' "diff") = RetDecodeFailed /\
   output (generate _ (session (generate _ s' "diff")) "other") =
   output (generate _ s' "other")) /\
  (output (generate _ s'' "diff") = "fix bug" /\
   exit (generate _ s'' "diff") = RetResult).
Proof.
  intros s s' s''. split; [|split].
  - destruct (generate_empty_string_cases _ s "diff") as (_ & H & _).
    apply H; [reflexivity | vm_compute; reflexivity].
  - destruct (generate_empty_string_cases _ s' "diff")
      as (_ & _ & H & _ & _ & _ & _ & Hnext).
    destruct H as (Ho & He & _);
      [reflexivity | vm_compute; discriminate | vm_compute; discriminate|].
    split; [exact Ho|]. split; [exact He|].
    apply (Hnext eq (scripted_reset_clears _) "other").
  - destruct (generate_empty_string_cases _ s'' "diff") as (_ & _ & _ & H & _).
    destruct H as (Ho & He);
      [reflexivity | vm_compute; discriminate | vm_compute; reflexivity|].
    rewrite Ho. split; [vm_compute; reflexivity | exact He].
Defined.

(** C6, the claim as worded: the empty string is returned although the
    tokenization of the prompt and its decode both succeed, by a ready
    session whose first sampled token is an end-of-generation token, and
    it is returned by a session that is not ready; so the empty string is
    not returned exactly when one of the two steps fails. *)
Lemma empty_string_without_failure :
  let E := Scripted.engine (Scripted.play []) in
  let s := Scripted.fresh (Scripted.play []) in
  (ready s = true /\
   0 <= fst (tokenized E "diff") /\
   fst (prompt_decoded E s "diff") = 0 /\
   output (generate E s "diff") = EmptyString /\
   exit (generate E s "diff") = RetResult) /\
  output (generate E (Scripted.loading (Scripted.play [])) "diff") = EmptyString /\
  ~ (forall (E : Engine) (s : Impl E) (diff : string),
        output (generate E s diff) = EmptyString <->
        fst (tokenized E diff) < 0 \/ fst (prompt_decoded E s diff) <> 0).
Proof.
  intros E s.
  assert (H : ready s = true /\
              0 <= fst (tokenized E "diff") /\
              fst (prompt_decoded E s "diff") = 0 /\
              output (generate E s "diff") = EmptyString /\
              exit (generate E s "diff") = RetResult).
  { split; [reflexivity|]. split; [vm_compute; discriminate|].
    repeat split; vm_compute; reflexivity. }
  split; [exact H|]. split; [vm_compute; reflexivity|].
  intros Hall. destruct H as (_ & Ht & Hd & Ho & _).
  destruct (proj1 (Hall E s "diff") Ho) as [Hneg|Hnz]; [lia | contradiction].
Qed.

(** * Further properties *)

(** ** The prompt *)

(** X1: the prompt is the 705 bytes of the template plus the first 4000
    bytes of the diff at most, so it never exceeds 4705 bytes, the token
    buffer never exceeds 4721 entries, and both sizes fit the [int]
    casts of line 103. *)
Theorem prompt_size_bounded (diff : string) :
  String.length (build_prompt diff) = (705 + String.length diff)%nat /\
  String.length (prompt_of diff) = (705 + Nat.min 4000 (String.length diff))%nat /\
  (705 <= String.length (prompt_of diff) <= 4705)%nat /\
  Z.of_nat (String.length (prompt_of diff) + 16) < 2 ^ 31.
Proof.
  assert (Hb : forall d, String.length (build_prompt d) = (705 + String.length d)%nat).
  { intros d. unfold build_prompt. rewrite !length_append.
    change (String.length (unlines system_turn)) with 671%nat.
    change (String.length (unlines assistant_turn)) with 34%nat. lia. }
  assert (Hp : String.length (prompt_of diff)
               = (705 + Nat.min 4000 (String.length diff))%nat).
  { unfold prompt_of. now rewrite Hb, substr0_length. }
  split; [apply Hb|]. split; [exact Hp|]. rewrite Hp. split; lia.
Qed.

(** ** The clean-up *)

Lemma list_ascii_inj (a b : string) :
  list_ascii_of_string a = list_ascii_of_string b -> a = b.
Proof.
  intros H. rewrite <- (string_of_list_ascii_of_string a),
    <- (string_of_list_ascii_of_string b). now rewrite H.
Qed.

Lemma drop_ws_app (l1 l2 : list ascii) :
  forallb is_trailing_ws l1 = true -> drop_ws (l1 ++ l2) = drop_ws l2.
Proof.
  induction l1 as [|c l1 IH]; simpl; [reflexivity|].
  intros H. apply andb_prop in H as [Hc Hl]. rewrite Hc. auto.
Qed.

Lemma forallb_rev (f : ascii -> bool) (l : list ascii) :
  forallb f (rev l) = forallb f l.
Proof.
  induction l as [|c l IH]; simpl; [reflexivity|].
  rewrite forallb_app, IH. simpl. rewrite andb_true_r. apply andb_comm.
Qed.

Lemma trim_trailing_spec (r : string) :
  list_ascii_of_string (trim_trailing r) = spec_trim (list_ascii_of_string r).
Proof. apply trim_loop_spec, le_n. Qed.

Lemma trim_trailing_app_ws (x w : string) :
  forallb is_trailing_ws (list_ascii_of_string w) = true ->
  trim_trailing (x ++ w) = trim_trailing x.
Proof.
  intros Hw. apply list_ascii_inj. rewrite !trim_trailing_spec.
  unfold spec_trim. rewrite list_ascii_append, rev_app_distr.
  rewrite drop_ws_app; [reflexivity | now rewrite forallb_rev].
Qed.

Lemma trim_trailing_stable (x : string) (c : ascii) :
  is_trailing_ws c = false -> trim_trailing (x ++ str c) = (x ++ str c)%string.
Proof.
  intros Hc. unfold trim_trailing. rewrite length_append. simpl.
  rewrite Nat.add_comm. simpl plus. rewrite trim_loop_snoc. now rewrite Hc.
Qed.

Lemma strip_trailing_quote_keeps (x : string) :
  match back x with Some c => Ascii.eqb c DQUOTE = false | None => True end ->
  strip_trailing_quote x = x.
Proof.
  unfold strip_trailing_quote. destruct (back x) as [c|].
  - intros ->. now rewrite andb_false_r.
  - now rewrite andb_false_r.
Qed.

Lemma back_app_nonempty (x w : string) :
  w <> EmptyString -> back (x ++ w) = back w.
Proof.
  intros Hw. destruct (snoc_cases w) as [-> | (w' & c & ->)]; [contradiction|].
  rewrite <- append_assoc. now rewrite !back_snoc.
Qed.

Lemma ws_not_quote (c : ascii) :
  is_trailing_ws c = true -> Ascii.eqb c DQUOTE = false.
Proof.
  unfold is_trailing_ws. intros H. apply orb_prop in H.
  destruct H as [H|H]; apply Ascii.eqb_eq in H; subst c; reflexivity.
Qed.

Lemma back_all_ws (w : string) :
  forallb is_trailing_ws (list_ascii_of_string w) = true ->
  match back w with Some c => Ascii.eqb c DQUOTE = false | None => True end.
Proof.
  destruct (snoc_cases w) as [-> | (w' & c & ->)]; [easy|].
  rewrite back_snoc, list_ascii_append, forallb_app. simpl.
  rewrite andb_true_r. intros H. apply andb_prop in H as [_ Hc].
  now apply ws_not_quote.
Qed.

(** X2: the clean-up only removes bytes at the two ends: at most one
    quote in front, and behind the kept text a run of line feeds and
    spaces followed by at most one quote.  The bytes in between are
    returned as they were accumulated. *)
Theorem post_process_removes_ends_only (r : string) :
  exists a w q : string,
    (r = a ++ post_process r ++ w ++ q)%string /\
    (a = EmptyString \/ a = str DQUOTE) /\
    forallb is_trailing_ws (list_ascii_of_string w) = true /\
    (q = EmptyString \/ q = str DQUOTE) /\
    (String.length (post_process r) <= String.length r)%nat.
Proof.
  assert (Ha : exists a, (r = a ++ strip_leading_quote r)%string /\
                         (a = EmptyString \/ a = str DQUOTE)).
  { destruct r as [|c r]; [exists EmptyString; auto|].
    unfold strip_leading_quote; simpl.
    destruct (Ascii.eqb_spec c DQUOTE) as [->|_].
    - exists (str DQUOTE); auto.
    - exists EmptyString; auto. }
  destruct Ha as (a & Hr & Ha). set (r1 := strip_leading_quote r) in *.
  assert (Hq : exists q, (r1 = strip_trailing_quote r1 ++ q)%string /\
                         (q = EmptyString \/ q = str DQUOTE)).
  { destruct (snoc_cases r1) as [-> | (x & c & ->)]; [exists EmptyString; auto|].
    rewrite strip_trailing_quote_snoc.
    destruct (Ascii.eqb_spec c DQUOTE) as [->|_].
    - exists (str DQUOTE); auto.
    - exists EmptyString. now rewrite append_empty_r; auto. }
  destruct Hq as (q & Hr1 & Hq). set (r2 := strip_trailing_quote r1) in *.
  destruct (trim_loop_split (String.length r2) r2) as (w & Hr2 & Hw).
  fold (trim_trailing r2) in Hr2.
  assert (Heq : (r = a ++ post_process r ++ w ++ q)%string).
  { unfold post_process. fold r1. fold r2.
    rewrite <- (append_assoc (trim_trailing r2) w q), <- Hr2, <- Hr1. exact Hr. }
  exists a, w, q. repeat split; try assumption.
  apply (f_equal String.length) in Heq. rewrite !length_append in Heq. lia.
Qed.

(** X3: the trailing quote is looked for before the trailing whitespace
    is trimmed, so a closing quote that is followed by line feeds or
    spaces is kept, while the opening quote is removed. *)
Theorem closing_quote_before_whitespace_is_kept (s w : string) :
  w <> EmptyString ->
  forallb is_trailing_ws (list_ascii_of_string w) = true ->
  post_process (String DQUOTE (s ++ str DQUOTE ++ w)) = (s ++ str DQUOTE)%string.
Proof.
  intros Hne Hw. unfold post_process.
  unfold strip_leading_quote at 1. simpl.
  rewrite strip_trailing_quote_keeps.
  - change (String DQUOTE w) with (str DQUOTE ++ w)%string.
    rewrite <- append_assoc, trim_trailing_app_ws by exact Hw.
    now apply trim_trailing_stable.
  - change (String DQUOTE w) with (str DQUOTE ++ w)%string.
    rewrite <- append_assoc, back_app_nonempty by exact Hne.
    now apply back_all_ws.
Qed.

Lemma closing_quote_before_whitespace_is_kept_witness :
  post_process (Examples.quoted "hello" ++ str LF) = ("hello" ++ str DQUOTE)%string.
Proof.
  apply (closing_quote_before_whitespace_is_kept "hello" (str LF));
    [discriminate | reflexivity].
Defined.

(** X4: a text made of line feeds and spaces only, quoted or not, is
    cleaned to the empty string. *)
Theorem post_process_blank_is_empty (w : string) :
  forallb is_trailing_ws (list_ascii_of_string w) = true ->
  post_process w = EmptyString /\
  post_process (Examples.quoted w) = EmptyString.
Proof.
  intros Hw.
  assert (Ht : trim_trailing w = EmptyString).
  { change w with (EmptyString ++ w)%string. now rewrite trim_trailing_app_ws. }
  split; [|unfold Examples.quoted; now rewrite post_process_quoted].
  unfold post_process.
  assert (Hl : strip_leading_quote w = w).
  { destruct w as [|c w']; [reflexivity|]. unfold strip_leading_quote; simpl.
    simpl in Hw. apply andb_prop in Hw as [Hc _].
    now rewrite (ws_not_quote c Hc). }
  rewrite Hl, strip_trailing_quote_keeps; [exact Ht | now apply back_all_ws].
Qed.

Lemma post_process_blank_is_empty_witness :
  post_process (String SPACE (String LF (str LF))) = EmptyString /\
  post_process (Examples.quoted (String SPACE (String LF (str LF)))) = EmptyString.
Proof. apply post_process_blank_is_empty. reflexivity. Defined.

(** ** The returned text *)

(** X5: whatever the engine answers and whichever return is taken, the
    returned string does not end with a line feed or a space. *)
Theorem output_has_no_trailing_whitespace
    (E : Engine) (s : Impl E) (diff : string) :
  match back (output (generate E s diff)) with
  | Some c => c <> LF /\ c <> SPACE
  | None => output (generate E s diff) = EmptyString
  end.
Proof.
  unfold generate.
  destruct (negb (is_ready E s)); [reflexivity|].
  destruct (_ <? 0); [reflexivity|].
  destruct (negb _); [reflexivity|].
  cbn [output]. unfold post_process.
  pose proof (trim_loop_done (String.length (strip_trailing_quote
     (strip_leading_quote (result (decode_loop E MAX_ITERATIONS (loop_init E s diff))))))
     _ (le_n _)) as H.
  fold (trim_trailing (strip_trailing_quote
     (strip_leading_quote (result (decode_loop E MAX_ITERATIONS (loop_init E s diff))))))
    in H.
  destruct (back (trim_trailing _)) as [c|]; [|exact H].
  unfold is_trailing_ws in H. apply orb_false_elim in H as [H1 H2].
  split; intros ->; discriminate.
Qed.

Lemma loop_body_length (E : Engine) (st : LoopState E) :
  (forall tok, fst (llama_token_to_piece E tok 256) <= 256) ->
  match loop_body E st with
  | Break st' | Next st' =>
      (String.length (result st') <= String.length (result st) + 256)%nat
  end.
Proof.
  intros Hlen. unfold loop_body.
  destruct (llama_sampler_sample E (sampler st) (lctx st)) as [tok smp].
  destruct (llama_vocab_is_eog E tok); [simpl; lia|].
  pose proof (Hlen tok) as Hl.
  destruct (llama_token_to_piece E tok 256) as [len buf]. simpl in Hl.
  destruct (len <? 0); [simpl; lia|].
  assert (Hres : (String.length (result st ++ substr0 (Z.to_nat len) buf)
                  <= String.length (result st) + 256)%nat).
  { rewrite length_append, substr0_length. lia. }
  destruct (find stop_str _).
  - cbn [result]. rewrite substr0_length. lia.
  - destruct (newline_rule _ _) as [cn stop]. destruct stop; [exact Hres|].
    destruct (llama_decode E (lctx st) [tok]) as [status c].
    destruct (negb _); exact Hres.
Qed.

Lemma decode_loop_length (E : Engine) (n : nat) (st : LoopState E) :
  (forall tok, fst (llama_token_to_piece E tok 256) <= 256) ->
  (String.length (result (decode_loop E n st))
   <= String.length (result st) + n * 256)%nat.
Proof.
  intros Hlen. revert st. induction n as [|n IH]; intros st; simpl; [lia|].
  pose proof (loop_body_length E st Hlen) as H.
  destruct (loop_body E st) as [st'|st']; [lia|].
  specialize (IH st'). lia.
Qed.

Lemma occurs_in_length (t s : string) :
  occurs_in t s -> (String.length t <= String.length s)%nat.
Proof. intros (a & b & ->). rewrite !length_append. lia. Qed.

(** X6: when the library never reports a fragment longer than the
    256-byte buffer it is given, the returned string has at most
    512 * 256 = 131072 bytes. *)
Theorem output_size_bounded (E : Engine) (s : Impl E) (diff : string) :
  (forall tok, fst (llama_token_to_piece E tok 256) <= 256) ->
  (String.length (output (generate E s diff)) <= MAX_RESULT)%nat /\
  Z.of_nat MAX_RESULT = 131072.
Proof.
  intros Hlen. split; [|unfold MAX_RESULT; rewrite Nat2Z.inj_mul; reflexivity].
  unfold MAX_RESULT, generate.
  destruct (negb (is_ready E s)); [cbn [output String.length]; lia|].
  destruct (_ <? 0); [cbn [output String.length]; lia|].
  destruct (negb _); [cbn [output String.length]; lia|].
  cbn [output].
  pose proof (occurs_in_length _ _ (post_process_occurs
              (result (decode_loop E MAX_ITERATIONS (loop_init E s diff))))) as Hpp.
  pose proof (decode_loop_length E MAX_ITERATIONS (loop_init E s diff) Hlen) as H.
  change (String.length (result (loop_init E s diff))) with 0%nat in H.
  unfold MAX_ITERATIONS in *. lia.
Qed.

Lemma output_size_bounded_witness :
  (String.length (output (generate _ (Scripted.fresh Examples.babble) "diff"))
   <= MAX_RESULT)%nat.
Proof.
  apply (output_size_bounded (Scripted.engine Examples.babble)).
  intros tok. unfold Scripted.engine, Scripted.frag_at; simpl.
  destruct (Z.to_nat tok); simpl; lia.
Defined.

(** ** The library calls of a run *)

Lemma loop_body_trace (E : Engine) (st : LoopState E) :
  match loop_body E st with
  | Break st' | Next st' =>
      exists evs, trace st' = trace st ++ evs /\ Forall (loop_event E) evs
  end.
Proof.
  unfold loop_body.
  destruct (llama_sampler_sample E (sampler st) (lctx st)) as [tok smp].
  destruct (llama_vocab_is_eog E tok) eqn:Heog.
  { exists [EvSample tok]. split; [reflexivity | repeat constructor]. }
  destruct (llama_token_to_piece E tok 256) as [len buf] eqn:Hpiece.
  assert (Hshort : Forall (loop_event E) [EvSample tok; EvTokenToPiece tok len])
    by (repeat constructor).
  assert (Happ : forall tr : list Event,
             (tr ++ [EvSample tok]) ++ [EvTokenToPiece tok len]
             = tr ++ [EvSample tok; EvTokenToPiece tok len])
    by (intros tr; now rewrite <- app_assoc).
  destruct (Z.ltb_spec len 0) as [Hneg|Hpos].
  { eexists; split; [apply Happ | exact Hshort]. }
  destruct (find stop_str _).
  { eexists; split; [apply Happ | exact Hshort]. }
  destruct (newline_rule _ _) as [cn stop]. destruct stop.
  { eexists; split; [apply Happ | exact Hshort]. }
  destruct (llama_decode E (lctx st) [tok]) as [status c].
  assert (Hlong : exists evs,
             ((trace st ++ [EvSample tok]) ++ [EvTokenToPiece tok len])
             ++ [EvDecode [tok] status] = trace st ++ evs /\
             Forall (loop_event E) evs).
  { exists [EvSample tok; EvTokenToPiece tok len; EvDecode [tok] status].
    split; [now rewrite <- !app_assoc|].
    repeat constructor; [exact Heog | now rewrite Hpiece]. }
  destruct (negb _); exact Hlong.
Qed.

Lemma decode_loop_trace (E : Engine) (n : nat) (st : LoopState E) :
  exists evs, trace (decode_loop E n st) = trace st ++ evs /\
              Forall (loop_event E) evs.
Proof.
  revert st. induction n as [|n IH]; intros st; simpl.
  - exists []. now rewrite app_nil_r.
  - pose proof (loop_body_trace E st) as H.
    destruct (loop_body E st) as [st'|st']; [exact H|].
    destruct H as (e1 & H1 & F1). destruct (IH st') as (e2 & H2 & F2).
    exists (e1 ++ e2). split.
    + now rewrite H2, H1, app_assoc.
    + apply Forall_app. now split.
Qed.

Lemma loop_event_filtered (E : Engine) (p : Event -> bool) (evs : list Event) :
  (forall e, loop_event E e -> p e = false) ->
  Forall (loop_event E) evs -> count p evs = 0%nat.
Proof.
  intros Hp. unfold count. induction 1 as [|e evs He _ IH]; [reflexivity|].
  simpl. now rewrite (Hp e He).
Qed.

Lemma count_app (p : Event -> bool) (a b : list Event) :
  count p (a ++ b) = (count p a + count p b)%nat.
Proof. unfold count. now rewrite filter_app, length_app. Qed.

Ltac not_loop_event :=
  let e := fresh "e" in
  intros e; destruct e as [| | | | [|? [|? ?]] ? | | | |]; simpl;
  intros; try reflexivity; contradiction.

(** X7: a call on a ready session takes the lock once, first, releases
    it once, last, on every return; clears the sequence memory once,
    before anything is tokenized, decoded or sampled; and frees the
    sampler chain exactly when it created one.  A call on a session that
    is not ready makes no call at all. *)
Theorem generate_calls_are_bracketed (E : Engine) (s : Impl E) (diff : string) :
  (ready s = false -> calls (generate E s diff) = []) /\
  (ready s = true ->
   exists mid,
     calls (generate E s diff) =
       EvLock :: EvMemorySeqRm
       :: EvTokenize (prompt_of diff) (fst (tokenized E diff))
       :: mid ++ [EvUnlock] /\
     count is_lock mid = 0%nat /\ count is_unlock mid = 0%nat /\
     count is_seq_rm mid = 0%nat /\
     count is_sampler_init mid = count is_sampler_free mid /\
     (count is_sampler_init mid = 1%nat <-> exit (generate E s diff) = RetResult)).
Proof.
  unfold generate, is_ready. split; intros Hr; rewrite Hr; cbn [negb calls];
    [reflexivity|].
  destruct (_ <? 0).
  { exists []. cbn. repeat split; discriminate. }
  destruct (negb _).
  { eexists [_]. cbn. repeat split; discriminate. }
  destruct (decode_loop_trace E MAX_ITERATIONS (loop_init E s diff))
    as (evs & Htr & Hev).
  cbn [calls exit]. rewrite Htr.
  exists ([EvDecode (prompt_tokens E diff) (fst (prompt_decoded E s diff));
           EvSamplerInit sampler_stages] ++ evs ++ [EvSamplerFree]).
  split.
  { cbn [loop_init trace prologue app]. rewrite <- !app_assoc. reflexivity. }
  rewrite !count_app.
  rewrite !(loop_event_filtered E _ evs) by (exact Hev || not_loop_event).
  cbn. repeat split; reflexivity.
Qed.

Lemma generate_calls_are_bracketed_witness :
  let r := generate _ (Scripted.fresh (Scripted.play Examples.hiccup)) "diff" in
  hd EvUnlock (calls r) = EvLock /\ last (calls r) EvLock = EvUnlock /\
  count is_lock (calls r) = 1%nat /\ count is_unlock (calls r) = 1%nat /\
  calls (generate _ (Scripted.loading (Scripted.play Examples.hiccup)) "diff") = [].
Proof.
  destruct (generate_calls_are_bracketed
              (Scripted.engine (Scripted.play Examples.hiccup))
              (Scripted.fresh (Scripted.play Examples.hiccup)) "diff")
    as (_ & H).
  destruct (H eq_refl) as (mid & Hc & Hl & Hu & _).
  destruct (generate_calls_are_bracketed
              (Scripted.engine (Scripted.play Examples.hiccup))
              (Scripted.loading (Scripted.play Examples.hiccup)) "diff")
    as (H0 & _).
  cbv zeta. rewrite Hc. split; [reflexivity|].
  split; [|split; [|split; [|exact (H0 eq_refl)]]].
  - change (EvLock :: EvMemorySeqRm :: EvTokenize (prompt_of "diff")
              (fst (tokenized (Scripted.engine (Scripted.play Examples.hiccup)) "diff"))
              :: mid ++ [EvUnlock])
      with ([EvLock; EvMemorySeqRm; EvTokenize (prompt_of "diff")
              (fst (tokenized (Scripted.engine (Scripted.play Examples.hiccup)) "diff"))]
              ++ mid ++ [EvUnlock]).
    rewrite !app_assoc. apply last_last.
  - change (count is_lock (EvLock :: EvMemorySeqRm :: EvTokenize (prompt_of "diff")
              (fst (tokenized (Scripted.engine (Scripted.play Examples.hiccup)) "diff"))
              :: mid ++ [EvUnlock]))
      with (S (count is_lock (mid ++ [EvUnlock]))).
    rewrite count_app, Hl. reflexivity.
  - change (count is_unlock (EvLock :: EvMemorySeqRm :: EvTokenize (prompt_of "diff")
              (fst (tokenized (Scripted.engine (Scripted.play Examples.hiccup)) "diff"))
              :: mid ++ [EvUnlock]))
      with (count is_unlock (mid ++ [EvUnlock])).
    rewrite count_app, Hu. reflexivity.
Defined.

(** X8: in the call log of a run that reaches the loop, the entries
    between the creation of the sampler chain and its release are draws,
    conversions and decodes only: the lock, the memory clear, the
    tokenizer and the creation or release of a sampler do not occur
    there.  Every decode logged there is of a single token, which is not
    an end-of-generation token and whose conversion did not fail; and at
    most 512 draws are logged.  (The log has no entry for
    [llama_vocab_is_eog] and [llama_batch_get_one], which the loop also
    calls.) *)
Theorem loop_calls_are_restricted (E : Engine) (s : Impl E) (diff : string) :
  ready s = true ->
  0 <= fst (tokenized E diff) ->
  fst (prompt_decoded E s diff) = 0 ->
  exists evs,
    calls (generate E s diff) =
      (prologue E diff
       ++ [EvDecode (prompt_tokens E diff) 0; EvSamplerInit sampler_stages])
      ++ evs ++ [EvSamplerFree; EvUnlock] /\
    Forall (loop_event E) evs /\
    (samples evs <= MAX_ITERATIONS)%nat.
Proof.
  intros Hr Ht Hd. rewrite (generate_runs_loop E s diff Hr Ht Hd). cbv zeta.
  destruct (decode_loop_trace E MAX_ITERATIONS (loop_init E s diff))
    as (evs & Htr & Hev).
  pose proof (decode_loop_samples E MAX_ITERATIONS (loop_init E s diff)) as Hs.
  rewrite Htr in Hs. unfold samples in Hs. rewrite filter_app, length_app in Hs.
  exists evs. cbn [calls]. rewrite Htr. cbn [loop_init trace]. rewrite Hd.
  split; [now rewrite <- !app_assoc|]. split; [exact Hev|].
  unfold samples. lia.
Qed.

Lemma loop_calls_are_restricted_witness :
  let E := Scripted.engine (Scripted.play Examples.hiccup) in
  exists evs,
    calls (generate E (Scripted.fresh (Scripted.play Examples.hiccup)) "diff") =
      (prologue E "diff"
       ++ [EvDecode (prompt_tokens E "diff") 0; EvSamplerInit sampler_stages])
      ++ evs ++ [EvSamplerFree; EvUnlock] /\
    Forall (loop_event E) evs.
Proof.
  intros E.
  destruct (loop_calls_are_restricted E
              (Scripted.fresh (Scripted.play Examples.hiccup)) "diff")
    as (evs & H1 & H2 & _);
    [reflexivity | vm_compute; discriminate | vm_compute; reflexivity |].
  exists evs. split; assumption.
Defined.

(** X9: when a sampled token is an end-of-generation token, the loop
    stops at once: nothing is converted, appended or decoded for it, and
    the call returns the clean-up of the text accumulated before it. *)
Theorem end_of_generation_stops
    (E : Engine) (s : Impl E) (diff : string) (k : nat) (st : LoopState E) :
  ready s = true ->
  0 <= fst (tokenized E diff) ->
  fst (prompt_decoded E s diff) = 0 ->
  (k < MAX_ITERATIONS)%nat ->
  run_iterations E k (loop_init E s diff) = Some st ->
  let tok := fst (llama_sampler_sample E (sampler st) (lctx st)) in
  llama_vocab_is_eog E tok = true ->
  let r := generate E s diff in
  output r = post_process (result st) /\
  exit r = RetResult /\
  ctx (session r) = lctx st /\
  calls r = (trace st ++ [EvSample tok]) ++ [EvSamplerFree; EvUnlock] /\
  samples (calls r) = S k.
Proof.
  intros Hr Ht Hd Hk Hrun tok Heog r.
  assert (Hbody : loop_body E st =
            Break {| sampler := snd (llama_sampler_sample E (sampler st) (lctx st));
                     lctx := lctx st; result := result st;
                     consecutive_newlines := consecutive_newlines st;
                     trace := trace st ++ [EvSample tok] |}).
  { unfold loop_body, tok in *.
    destruct (llama_sampler_sample E (sampler st) (lctx st)) as [t smp].
    simpl in Heog |- *. now rewrite Heog. }
  subst r. rewrite (generate_breaks E s diff k st _ Hr Ht Hd Hk Hrun Hbody).
  cbn [output exit session ctx calls result lctx trace]. repeat split.
  unfold samples. rewrite !filter_app, !length_app.
  fold (samples (trace st)). rewrite (run_iterations_samples E k _ _ Hrun).
  change (samples (trace (loop_init E s diff))) with 0%nat.
  cbn [filter is_sample Datatypes.length]. lia.
Qed.

Lemma end_of_generation_stops_witness :
  let r := generate _ (Scripted.fresh (Scripted.play Examples.hiccup)) "diff" in
  output r = "fix bug" /\ exit r = RetResult /\ samples (calls r) = 4%nat.
Proof.
  pose proof (end_of_generation_stops
                (Scripted.engine (Scripted.play Examples.hiccup))
                (Scripted.fresh (Scripted.play Examples.hiccup)) "diff" 3
                (Examples.state_after Examples.hiccup 3) eq_refl) as H.
  specialize (H ltac:(vm_compute; discriminate) ltac:(vm_compute; reflexivity)
                ltac:(vm_compute; lia) ltac:(vm_compute; reflexivity)
                ltac:(vm_compute; reflexivity)).
  destruct H as (H1 & H2 & _ & _ & H5). cbv zeta. rewrite H1, H2, H5.
  repeat split.
Defined.

(** X10: when none of the 512 iterations meets a stop condition, the
    loop ends by its bound, and the call returns the clean-up of
    everything accumulated, through the final return, after exactly 512
    draws. *)
Theorem iteration_bound_returns_text
    (E : Engine) (s : Impl E) (diff : string) (st : LoopState E) :
  ready s = true ->
  0 <= fst (tokenized E diff) ->
  fst (prompt_decoded E s diff) = 0 ->
  run_iterations E MAX_ITERATIONS (loop_init E s diff) = Some st ->
  let r := generate E s diff in
  output r = post_process (result st) /\
  exit r = RetResult /\
  calls r = trace st ++ [EvSamplerFree; EvUnlock] /\
  samples (calls r) = 512%nat.
Proof.
  intros Hr Ht Hd Hrun r. subst r.
  rewrite (generate_runs_loop E s diff Hr Ht Hd). cbv zeta.
  rewrite (decode_loop_exhausted E _ _ _ Hrun).
  cbn [output exit calls]. repeat split.
  unfold samples. rewrite filter_app, length_app.
  fold (samples (trace st)). rewrite (run_iterations_samples E _ _ _ Hrun).
  change (samples (trace (loop_init E s diff))) with 0%nat.
  cbn [filter is_sample Datatypes.length]. reflexivity.
Qed.

Lemma iteration_bound_returns_text_witness :
  let r := generate _ (Scripted.fresh Examples.babble) "diff" in
  String.length (output r) = 512%nat /\ exit r = RetResult /\
  samples (calls r) = 512%nat /\
  last (calls r) EvLock = EvUnlock.
Proof.
  pose proof (iteration_bound_returns_text (Scripted.engine Examples.babble)
                (Scripted.fresh Examples.babble) "diff"
                (MoreExamples.script_state Examples.babble 512) eq_refl) as H.
  specialize (H ltac:(vm_compute; discriminate) ltac:(vm_compute; reflexivity)
                ltac:(vm_compute; reflexivity)).
  destruct H as (H1 & H2 & H3 & H4). cbv zeta. rewrite H1, H2, H4, H3.
  split; [vm_compute; reflexivity|]. split; [reflexivity|].
  split; [reflexivity|].
  change [EvSamplerFree; EvUnlock] with ([EvSamplerFree] ++ [EvUnlock]).
  rewrite app_assoc. apply last_last.
Defined.

Lemma loop_body_counter (E : Engine) (st st' : LoopState E) :
  0 <= consecutive_newlines st <= 2 ->
  loop_body E st = Next st' ->
  0 <= consecutive_newlines st' <= 2.
Proof.
  intros Hcn. unfold loop_body.
  destruct (llama_sampler_sample E (sampler st) (lctx st)) as [tok smp].
  destruct (llama_vocab_is_eog E tok); [discriminate|].
  destruct (llama_token_to_piece E tok 256) as [len buf].
  destruct (len <? 0); [now intros [= <-]|].
  destruct (find stop_str _); [discriminate|].
  unfold newline_rule.
  destruct (String.eqb _ _).
  - destruct (Z.leb_spec 3 (consecutive_newlines st + 1)); [discriminate|].
    destruct (llama_decode E (lctx st) [tok]) as [status c].
    destruct (negb _); [discriminate|]. intros [= <-]. simpl. lia.
  - destruct (find_first_not_of _ _);
      destruct (llama_decode E (lctx st) [tok]) as [status c];
      destruct (negb _); try discriminate; intros [= <-]; simpl; lia.
Qed.

(** X11: at the start of every iteration of a run, the newline counter
    is 0, 1 or 2, the accumulated text does not contain the stop marker,
    and exactly one token per completed iteration has been drawn. *)
Theorem loop_state_invariant
    (E : Engine) (s : Impl E) (diff : string) (k : nat) (st : LoopState E) :
  run_iterations E k (loop_init E s diff) = Some st ->
  0 <= consecutive_newlines st <= 2 /\
  ~ occurs_in stop_str (result st) /\
  samples (trace st) = k.
Proof.
  intros Hrun. split; [|split].
  - assert (H0 : 0 <= consecutive_newlines (loop_init E s diff) <= 2)
      by (simpl; lia).
    revert Hrun H0. generalize (loop_init E s diff). clear s diff.
    induction k as [|k IH]; intros st0; simpl.
    + now intros [= ->].
    + destruct (loop_body E st0) as [?|st1] eqn:Hb; [discriminate|].
      intros Hrun H0. apply (IH st1 Hrun).
      now apply (loop_body_counter E st0 st1).
  - apply find_none.
    apply (run_iterations_inv E k _ _ (loop_init_inv E s diff) Hrun).
  - now rewrite (run_iterations_samples E k _ _ Hrun).
Qed.

Lemma loop_state_invariant_witness :
  let st := Examples.state_after Examples.padded 3 in
  consecutive_newlines st = 2 /\ samples (trace st) = 3%nat /\
  ~ occurs_in stop_str (result st).
Proof.
  destruct (loop_state_invariant
              (Scripted.engine (Scripted.play Examples.padded))
              (Scripted.fresh (Scripted.play Examples.padded)) "diff" 3
              (Examples.state_after Examples.padded 3))
    as (_ & H2 & H3); [vm_compute; reflexivity|].
  cbv zeta. split; [vm_compute; reflexivity|]. split; assumption.
Defined.

(** ** Loading and releasing *)

(** X12: after the load task, the session is ready exactly when the
    model file was loaded; a session that is not ready holds no handle at
    all, and a ready one holds the model and its vocabulary.  Readiness
    does not wait for the context: when the model loads and the context
    cannot be created, the session is ready with a null context. *)
Theorem load_ready_iff_model (L : Lifecycle.Loader) (model_path : string) :
  let impl := Lifecycle.load_task L model_path in
  (Lifecycle.is_ready L impl = true <->
     exists m, Lifecycle.llama_model_load_from_file L model_path = Some m) /\
  (Lifecycle.is_ready L impl = true <-> Lifecycle.model impl <> None) /\
  (Lifecycle.is_ready L impl = false -> impl = Lifecycle.fresh_impl L) /\
  (Lifecycle.is_ready L impl = true -> Lifecycle.vocab impl <> None) /\
  (forall m, Lifecycle.llama_model_load_from_file L model_path = Some m ->
             Lifecycle.llama_init_from_model L m 4096 = None ->
             Lifecycle.is_ready L impl = true /\ Lifecycle.ctx impl = None).
Proof.
  unfold Lifecycle.load_task, Lifecycle.is_ready.
  destruct (Lifecycle.llama_model_load_from_file L model_path) as [m|]; cbn.
  - split; [split; [eauto | reflexivity]|].
    split; [split; [discriminate | reflexivity]|].
    split; [discriminate|]. split; [discriminate|].
    intros m' [= <-] Hc. split; [reflexivity | exact Hc].
  - split; [split; [discriminate | intros (m & Hm); discriminate]|].
    split; [split; [discriminate | intros H; now elim H]|].
    split; [reflexivity|]. split; discriminate.
Qed.

Lemma load_ready_iff_model_witness :
  Lifecycle.is_ready _
    (Lifecycle.load_task (Lifecycle.single_file false) "model.gguf") = true /\
  Lifecycle.ctx (Lifecycle.load_task (Lifecycle.single_file false) "model.gguf")
  = None /\
  Lifecycle.load_task (Lifecycle.single_file true) "missing.gguf"
  = Lifecycle.fresh_impl _.
Proof.
  destruct (load_ready_iff_model (Lifecycle.single_file false) "model.gguf")
    as (_ & _ & _ & _ & H).
  destruct (H "model.gguf" eq_refl eq_refl) as (H1 & H2).
  destruct (load_ready_iff_model (Lifecycle.single_file true) "missing.gguf")
    as (_ & _ & H3 & _).
  split; [exact H1|]. split; [exact H2 | exact (H3 eq_refl)].
Defined.

(** X13: the destructor releases exactly the handles the load task
    obtained, each once, the context before the model: nothing when the
    model file could not be loaded, the model alone when the context
    could not be created, the context and then the model otherwise.  The
    vocabulary is never released on its own. *)
Theorem destroy_releases_what_was_loaded (L : Lifecycle.Loader) (model_path : string) :
  let impl := Lifecycle.load_task L model_path in
  (Lifecycle.is_ready L impl = false -> Lifecycle.destroy L impl = []) /\
  (forall m, Lifecycle.model impl = Some m ->
     Lifecycle.ctx impl = None ->
     Lifecycle.destroy L impl = [Lifecycle.LlamaModelFree m]) /\
  (forall m c, Lifecycle.model impl = Some m ->
     Lifecycle.ctx impl = Some c ->
     Lifecycle.destroy L impl = [Lifecycle.LlamaFree c; Lifecycle.LlamaModelFree m]) /\
  (Lifecycle.model impl = None -> Lifecycle.ctx impl = None) /\
  (List.length (Lifecycle.destroy L impl) <= 2)%nat.
Proof.
  unfold Lifecycle.load_task, Lifecycle.is_ready, Lifecycle.destroy.
  destruct (Lifecycle.llama_model_load_from_file L model_path) as [m|]; cbn.
  - destruct (Lifecycle.llama_init_from_model L m Lifecycle.N_CTX) as [c|]; cbn;
      repeat split; try discriminate; try lia.
    + now intros m' c' [= <-] [= <-].
    + now intros m' [= <-] _.
  - repeat split; try discriminate; try lia.
Qed.

Lemma destroy_releases_what_was_loaded_witness :
  Lifecycle.destroy _ (Lifecycle.load_task (Lifecycle.single_file true) "model.gguf")
  = [@Lifecycle.LlamaFree (Lifecycle.single_file true) 4096;
     @Lifecycle.LlamaModelFree (Lifecycle.single_file true) "model.gguf"] /\
  Lifecycle.destroy _ (Lifecycle.load_task (Lifecycle.single_file false) "model.gguf")
  = [@Lifecycle.LlamaModelFree (Lifecycle.single_file false) "model.gguf"] /\
  Lifecycle.destroy _ (Lifecycle.load_task (Lifecycle.single_file true) "missing.gguf")
  = [].
Proof.
  destruct (destroy_releases_what_was_loaded (Lifecycle.single_file true) "model.gguf")
    as (_ & _ & H1 & _).
  destruct (destroy_releases_what_was_loaded (Lifecycle.single_file false) "model.gguf")
    as (_ & H2 & _).
  destruct (destroy_releases_what_was_loaded (Lifecycle.single_file true) "missing.gguf")
    as (H3 & _).
  split; [exact (H1 "model.gguf" 4096 eq_refl eq_refl)|].
  split; [exact (H2 "model.gguf" eq_refl eq_refl) | exact (H3 eq_refl)].
Defined.
